(** * Voice-secretary webhook: time normalisation, availability, booking,
      tool-call batches and message canonicalisation.

    A shallow embedding of the JavaScript sources.  The file follows the
    layering of the program: the JavaScript runtime pieces the code relies on
    (strings, a backtracking matcher for the regular expressions that occur in
    the sources, exceptions), then the time helpers, the calendar helpers, and
    finally the two HTTP handlers. *)

From Stdlib Require Import String Ascii List Arith Bool ZArith Lia DecimalString.
Import ListNotations.
Open Scope string_scope.
Open Scope nat_scope.

(** ** JavaScript runtime fragments *)

Module JS.

(** A JavaScript string is a sequence of UTF-16 code units.  We represent the
    strings whose code units are all below 256: every [ascii] of a Rocq
    [string] is one code unit. *)

Definition code (c : ascii) : nat := nat_of_ascii c.

(** [\d] : the ten ASCII digits. *)
Definition isDigit (c : ascii) : bool := (48 <=? code c) && (code c <=? 57).

(** [\s] restricted to code units below 256: TAB, LF, VT, FF, CR, SPACE and
    NO-BREAK SPACE. *)
Definition isSpace (c : ascii) : bool :=
  ((9 <=? code c) && (code c <=? 13)) || (code c =? 32) || (code c =? 160).

(** Upper-casing of one code unit, on the ASCII letters. *)
Definition upper (c : ascii) : ascii :=
  if (97 <=? code c) && (code c <=? 122) then ascii_of_nat (code c - 32) else c.

(** A literal character under the [i] flag: both sides are canonicalised by
    upper-casing; a code unit of 128 or more never canonicalises to an ASCII
    letter. *)
Definition ci (x c : ascii) : bool := Ascii.eqb (upper x) (upper c).

(** A literal character without flags. *)
Definition lit (x c : ascii) : bool := Ascii.eqb x c.

(** [String.prototype.toUpperCase], on strings whose letters are ASCII. *)
Fixpoint toUpperCase (s : string) : string :=
  match s with
  | EmptyString => EmptyString
  | String c s' => String (upper c) (toUpperCase s')
  end.

Fixpoint repeat (c : ascii) (n : nat) : string :=
  match n with
  | O => EmptyString
  | S n' => String c (repeat c n')
  end.

(** [s.padStart(n, c)] for a one-character filler. *)
Definition padStart (n : nat) (c : ascii) (s : string) : string :=
  repeat c (n - String.length s) ++ s.

(** Numbers: the code only builds non-negative integers or NaN. *)
Inductive number : Type :=
| NaN
| Int (n : nat).

(** [Number.prototype.toString] in base ten. *)
Definition toString (x : number) : string :=
  match x with
  | NaN => "NaN"
  | Int n => NilEmpty.string_of_uint (Nat.to_uint n)
  end.

Definition digitVal (c : ascii) : nat := code c - 48.

Fixpoint digitsValue (s : string) (acc : number) : number :=
  match s with
  | String c s' =>
      if isDigit c
      then digitsValue s' (Int (10 * (match acc with Int a => a | NaN => 0 end) + digitVal c))
      else acc
  | EmptyString => acc
  end.

(** [parseInt(v)] where [v] is a capture: [undefined] ([None]) gives NaN, a
    string gives the value of its longest prefix of digits and NaN when
    that prefix is empty.  (Leading blanks, a sign and the [0x] prefix, which
    [parseInt] also understands, cannot occur in a group of [\d].) *)
Definition parseInt (v : option string) : number :=
  match v with
  | None => NaN
  | Some s => digitsValue s NaN
  end.

(** [x < n], [x === n] and [x + n] against an integer literal. *)
Definition ltb (x : number) (n : nat) : bool :=
  match x with Int a => a <? n | NaN => false end.
Definition geb (x : number) (n : nat) : bool :=
  match x with Int a => n <=? a | NaN => false end.
Definition eqb (x : number) (n : nat) : bool :=
  match x with Int a => a =? n | NaN => false end.
Definition add (x : number) (n : nat) : number :=
  match x with Int a => Int (a + n) | NaN => NaN end.

(** [v || d] on an optional string: [undefined] and the empty string are
    falsy. *)
Definition orElse (v : option string) (d : string) : string :=
  match v with
  | Some (String c s) => String c s
  | _ => d
  end.

(** A value spliced into a template literal. *)
Definition splice (v : option string) : string :=
  match v with
  | Some s => s
  | None => "undefined"
  end.

(** Exceptions: a computation returns or throws an [Error] with a message. *)
Inductive Exc (A : Type) : Type :=
| Ret (a : A)
| Throw (message : string).
Arguments Ret {A} a.
Arguments Throw {A} message.

(** [t] occurs in [s] ([s.includes(t)]). *)
Fixpoint includes (t s : string) : bool :=
  if String.prefix t s then true
  else match s with
       | EmptyString => false
       | String _ s' => includes t s'
       end.

End JS.

(** ** Regular expressions

    The fragment of the regular-expression syntax the sources use, with the
    backtracking semantics of [String.prototype.match]: quantifiers are greedy,
    alternatives are tried left to right, the first position of the input at
    which some path succeeds wins, and a group that did not take part in the
    match is [undefined]. *)

Module Regex.

Inductive regex : Type :=
| Chr (p : ascii -> bool)          (* one character of a class *)
| Seq (r1 r2 : regex)              (* r1 r2 *)
| Alt (r1 r2 : regex)              (* r1|r2 *)
| Opt (r : regex)                  (* r?  *)
| Star (p : ascii -> bool)         (* c*  for a class c *)
| Grp (i : nat) (r : regex)        (* the i-th parenthesis *)
| Bol                              (* ^ *)
| Eol.                             (* $ *)

Declare Scope regex_scope.
Delimit Scope regex_scope with re.
Bind Scope regex_scope with regex.
Infix "@" := Seq (at level 60, right associativity) : regex_scope.

Definition captures : Type := list (nat * string).

Fixpoint group (m : captures) (i : nat) : option string :=
  match m with
  | [] => None
  | (j, s) :: m' => if i =? j then Some s else group m' i
  end.

Section Matcher.
Context {R : Type}.

(** A continuation receives the position reached, the rest of the input
    and the captures so far. *)
Definition cont : Type := nat -> string -> captures -> option R.

Fixpoint star (p : ascii -> bool) (pos : nat) (s : string) (c : captures)
         (k : cont) : option R :=
  match s with
  | String a s' =>
      if p a
      then match star p (S pos) s' c k with
           | Some x => Some x
           | None => k pos s c
           end
      else k pos s c
  | EmptyString => k pos s c
  end.

Fixpoint rmatch (r : regex) (pos : nat) (s : string) (c : captures)
         (k : cont) : option R :=
  match r with
  | Chr p =>
      match s with
      | String a s' => if p a then k (S pos) s' c else None
      | EmptyString => None
      end
  | Seq r1 r2 =>
      rmatch r1 pos s c (fun pos' s' c' => rmatch r2 pos' s' c' k)
  | Alt r1 r2 =>
      match rmatch r1 pos s c k with
      | Some x => Some x
      | None => rmatch r2 pos s c k
      end
  | Opt r1 =>
      match rmatch r1 pos s c k with
      | Some x => Some x
      | None => k pos s c
      end
  | Star p => star p pos s c k
  | Grp i r1 =>
      rmatch r1 pos s c
        (fun pos' s' c' => k pos' s' ((i, substring 0 (pos' - pos) s) :: c'))
  | Bol => if pos =? 0 then k pos s c else None
  | Eol => match s with EmptyString => k pos s c | String _ _ => None end
  end.

(** Try the pattern at the current position, then one character further. *)
Fixpoint search (r : regex) (pos : nat) (s : string) (k : cont) : option R :=
  match rmatch r pos s [] k with
  | Some x => Some x
  | None =>
      match s with
      | String _ s' => search r (S pos) s' k
      | EmptyString => None
      end
  end.
End Matcher.

(** [s.match(r)] for a pattern without the [g] flag: the captures of the
    first match, or [None] for [null]. *)
Definition exec (r : regex) (s : string) : option captures :=
  search r 0 s (fun _ _ c => Some c).

(** [r.test(s)]. *)
Definition test (r : regex) (s : string) : bool :=
  match exec r s with Some _ => true | None => false end.

End Regex.

Import JS Regex.
Local Open Scope regex_scope.

(** ** Time helpers *)

Definition digit : regex := Chr isDigit.

(** [/^(\d{1,2}):(\d{2})$/] *)
Definition hhmm_re : regex :=
  Bol @ Grp 1 (digit @ Opt digit) @ Chr (lit ":") @ Grp 2 (digit @ digit) @ Eol.

(** [/(\d{1,2}):?(\d{2})?\s*(AM|PM)/i] *)
Definition ampm_re : regex :=
  Grp 1 (digit @ Opt digit) @ Opt (Chr (lit ":")) @ Opt (Grp 2 (digit @ digit))
  @ Star isSpace @ Grp 3 (Alt (Chr (ci "A") @ Chr (ci "M")) (Chr (ci "P") @ Chr (ci "M"))).

(** [/^\d{2}:\d{2}$/] and [/^\d{1}:\d{2}$/] *)
Definition hh_mm_re : regex := Bol @ digit @ digit @ Chr (lit ":") @ digit @ digit @ Eol.
Definition h_mm_re : regex := Bol @ digit @ Chr (lit ":") @ digit @ digit @ Eol.

(** The conversion both helpers apply to a match of [ampm_re]. *)
Definition convert12 (m : captures) : string :=
  let hour := parseInt (group m 1) in
  let minute := orElse (group m 2) "00" in
  let period := toUpperCase (splice (group m 3)) in
  let hour := if String.eqb period "PM" && negb (JS.eqb hour 12) then add hour 12 else hour in
  let hour := if String.eqb period "AM" && JS.eqb hour 12 then Int 0 else hour in
  padStart 2 "0" (toString hour) ++ ":" ++ minute.

Definition invalidTimeMessage (time : string) : string :=
  "Invalid time format: " ++ time ++ ". Expected HH:MM or H:MM AM/PM".

(** [normalizeTime], the helper of the service-account server. *)
Definition normalizeTime (time : string) : Exc string :=
  let ampm :=
    match exec ampm_re time with
    | Some ampmMatch => Ret (convert12 ampmMatch)
    | None => Throw (invalidTimeMessage time)
    end in
  match exec hhmm_re time with
  | Some hhmmMatch =>
      let hour := parseInt (group hhmmMatch 1) in
      let minute := splice (group hhmmMatch 2) in
      if geb hour 0 && ltb hour 24
      then Ret (padStart 2 "0" (toString hour) ++ ":" ++ minute)
      else ampm
  | None => ampm
  end.

(** [formatTime], the inline helper of [checkAvailability] in index.js. *)
Definition formatTime (time : string) : string :=
  if test hh_mm_re time then time
  else if test h_mm_re time then padStart 5 "0" time
  else match exec ampm_re time with
       | Some m => convert12 m
       | None => time
       end.

(** ** What a pattern means

    [sem r pos w rest c c'] : at position [pos], with [w ++ rest] still to
    read, the pattern [r] can consume [w] and turn the captures [c] into [c'].
    The relation ignores priorities; the matcher selects one of its
    derivations. *)

Inductive sem : regex -> nat -> string -> string -> captures -> captures -> Prop :=
| sem_chr p a pos rest c :
    p a = true -> sem (Chr p) pos (String a "") rest c c
| sem_seq r1 r2 pos w1 w2 rest c c1 c2 :
    sem r1 pos w1 (w2 ++ rest) c c1 ->
    sem r2 (pos + String.length w1) w2 rest c1 c2 ->
    sem (r1 @ r2) pos (w1 ++ w2) rest c c2
| sem_alt_l r1 r2 pos w rest c c' :
    sem r1 pos w rest c c' -> sem (Alt r1 r2) pos w rest c c'
| sem_alt_r r1 r2 pos w rest c c' :
    sem r2 pos w rest c c' -> sem (Alt r1 r2) pos w rest c c'
| sem_opt_some r pos w rest c c' :
    sem r pos w rest c c' -> sem (Opt r) pos w rest c c'
| sem_opt_none r pos rest c :
    sem (Opt r) pos "" rest c c
| sem_star_nil p pos rest c :
    sem (Star p) pos "" rest c c
| sem_star_cons p a pos w rest c :
    p a = true -> sem (Star p) (S pos) w rest c c ->
    sem (Star p) pos (String a w) rest c c
| sem_grp i r pos w rest c c' :
    sem r pos w rest c c' -> sem (Grp i r) pos w rest c ((i, w) :: c')
| sem_bol rest c :
    sem Bol 0 "" rest c c
| sem_eol pos c :
    sem Eol pos "" "" c c.

(** [s] has a match of [r] somewhere, with captures [m]. *)
Definition matchesSomewhere (r : regex) (s : string) (m : captures) : Prop :=
  exists pre w rest, s = pre ++ w ++ rest /\ sem r (String.length pre) w rest [] m.

(** ** Shapes of time strings, used to state the results *)

Fixpoint allChars (p : ascii -> bool) (s : string) : bool :=
  match s with
  | EmptyString => true
  | String a s' => p a && allChars p s'
  end.

Fixpoint anyChar (p : ascii -> bool) (s : string) : bool :=
  match s with
  | EmptyString => false
  | String a s' => p a || anyChar p s'
  end.

(** A string of exactly [n] digits. *)
Definition digitString (n : nat) (s : string) : Prop :=
  String.length s = n /\ allChars isDigit s = true.

(** The 12-hour rule in the words of the specification: PM and an hour other
    than 12 add 12; AM and hour 12 give 0. *)
Definition hour24 (period : string) (h : nat) : nat :=
  if String.eqb period "PM" && negb (h =? 12) then h + 12
  else if String.eqb period "AM" && (h =? 12) then 0
  else h.

(** ** Values, the environment and effects *)

(** The values [JSON.parse] can deliver, and [undefined]. *)
#[warnings="-register-all"]
Inductive value : Type :=
| VUndefined
| VNull
| VBool (b : bool)
| VNum (n : Z)
| VStr (s : string)
| VArr (items : list value)
| VObj (fields : list (string * value)).

(** [`${v}`]: the string a template literal splices in (numbers are the
    integers that print without an exponent). *)
Fixpoint str (v : value) : string :=
  match v with
  | VUndefined => "undefined"
  | VNull => "null"
  | VBool true => "true"
  | VBool false => "false"
  | VNum n => NilEmpty.string_of_int (Z.to_int n)
  | VStr s => s
  | VArr items =>
      let item (x : value) : string :=
        match x with VUndefined | VNull => "" | _ => str x end in
      (fix join (l : list value) : string :=
         match l with
         | [] => ""
         | [x] => item x
         | x :: l' => item x ++ "," ++ join l'
         end) items
  | VObj _ => "[object Object]"
  end.

(** Truthiness, as [if (v)] and [v || d] see it. *)
Definition truthy (v : value) : bool :=
  match v with
  | VUndefined | VNull | VBool false | VStr "" => false
  | VNum n => negb (Z.eqb n 0)
  | _ => true
  end.

(** A default parameter [p = d] replaces [undefined] only. *)
Definition orDefault (v d : value) : value :=
  match v with VUndefined => d | _ => v end.

Fixpoint lookup (key : string) (fields : list (string * value)) : value :=
  match fields with
  | [] => VUndefined
  | (k, v) :: fields' => if String.eqb k key then v else lookup key fields'
  end.

(** [const { key } = v], where [src] is the text of the expression [v]:
    reading a property throws on [undefined] and [null]; the keys read here
    exist on objects only. *)
Definition prop (src : string) (v : value) (key : string) : Exc value :=
  match v with
  | VUndefined =>
      Throw ("Cannot destructure property '" ++ key ++ "' of '" ++ src
             ++ "' as it is undefined.")
  | VNull =>
      Throw ("Cannot destructure property '" ++ key ++ "' of '" ++ src
             ++ "' as it is null.")
  | VObj fields => Ret (lookup key fields)
  | _ => Ret VUndefined
  end.

(** [v?.key] and, on a value that is neither [undefined] nor [null], [v.key],
    for a key that only an object can hold. *)
Definition optProp (v : value) (key : string) : value :=
  match v with
  | VObj fields => lookup key fields
  | _ => VUndefined
  end.

(** [v.length] of a value that is neither [undefined] nor [null]. *)
Definition lengthOf (v : value) : value :=
  match v with
  | VArr items => VNum (Z.of_nat (List.length items))
  | VStr s => VNum (Z.of_nat (String.length s))
  | VObj fields => lookup "length" fields
  | _ => VUndefined
  end.


(** [v === 0] *)
Definition isZero (v : value) : bool :=
  match v with VNum n => Z.eqb n 0 | _ => false end.

(** [v === 'text'] *)
Definition isString (v : value) (text : string) : bool :=
  match v with VStr s => String.eqb s text | _ => false end.

(** What [for (const x of v)] visits, where [src] is the text of the
    expression [v]: the items of an array, the characters of a string; any
    other value is not iterable. *)
Definition iterate (src : string) (v : value) : Exc (list value) :=
  match v with
  | VArr items => Ret items
  | VStr s => Ret (map (fun c => VStr (String c EmptyString)) (list_ascii_of_string s))
  | _ => Throw (src ++ " is not iterable")
  end.

(** A calendar event as [events.list] returns it. *)
Record EventTime : Type := { dateTime : option string; date : option string }.
Record Event : Type := { ev_summary : string; ev_start : EventTime; ev_end : EventTime }.

Record ListRequest : Type :=
  { l_calendarId : string; timeMin : string; timeMax : string; singleEvents : bool }.

(** [response.data] of [events.list]; [items] may be missing. *)
Record ListResponse : Type := { items : option (list Event) }.

Record EventDateTime : Type := { e_dateTime : string; e_timeZone : string }.

Record NewEvent : Type :=
  { summary : value;
    description : value;
    start : EventDateTime;
    end_ : EventDateTime;
    attendees : option (list value);
    sendUpdates : option string }.

Record InsertRequest : Type := { i_calendarId : string; resource : NewEvent }.

(** [response.data] of [events.insert]. *)
Record InsertResponse : Type := { id : string; htmlLink : string }.

(** What the helpers return.  A field that the returned object does not have
    is [None]. *)
Record Availability : Type := { available : bool; a_message : string }.

Record Booking : Type :=
  { success : bool;
    message : option string;
    eventId : option string;
    link : option string;
    error : option string }.

(** Messages and completions of the language model. *)
Record Message : Type := { role : string; content : string }.

Inductive ToolOutcome : Type :=
| OutAvailability (available : bool) (message : string)
| OutBooking (b : Booking)
| OutNothing.

Inductive Block : Type :=
| TextBlock (text : string)
| ToolUseBlock (id name : string) (input : value)
| ToolResultBlock (tool_use_id : string) (content : ToolOutcome).

Inductive Content : Type :=
| Plain (text : string)
| Blocks (blocks : list Block).

Record Turn : Type := { t_role : string; t_content : Content }.

Record CreateRequest : Type :=
  { max_tokens : nat; system : string; messages : list Turn }.

Record Completion : Type := { stop_reason : string; c_content : list Block }.

(** A call to a remote service. *)
Inductive Call : Type :=
| CalendarList (req : ListRequest)
| CalendarInsert (req : InsertRequest)
| ModelCreate (req : CreateRequest).

(** The collaborators and runtime services the code is handed.  [World] is
    the state of the remote services; a remote call may fail (its promise is
    rejected with an error that carries a message). *)
Class Env : Type :=
  { World : Type;
    (** [new Date(s).getTime()]; [None] is an invalid date *)
    Date_parse : string -> option Z;
    toISOString : Z -> string;
    JSON_parse : string -> Exc value;
    (** [process.env.GOOGLE_CALENDAR_ID] *)
    GOOGLE_CALENDAR_ID : option string;
    events_list : ListRequest -> World -> Exc ListResponse * World;
    events_insert : InsertRequest -> World -> Exc InsertResponse * World;
    messages_create : CreateRequest -> World -> Exc Completion * World }.

Section Effects.
Context {E : Env}.

(** The state a handler runs in: the remote world and the calls made so far,
    oldest first. *)
Record State : Type := { world : World; calls : list Call }.

(** A computation that may call the remote services and may throw. *)
Definition M (A : Type) : Type := State -> Exc A * State.

Definition ret {A : Type} (a : A) : M A := fun s => (Ret a, s).

Definition bind {A B : Type} (m : M A) (k : A -> M B) : M B :=
  fun s =>
    match m s with
    | (Ret a, s') => k a s'
    | (Throw msg, s') => (Throw msg, s')
    end.

(** A pure step that may throw. *)
Definition lift {A : Type} (x : Exc A) : M A := fun s => (x, s).

(** [try { body } catch (error) { handler(error.message) }] *)
Definition tryCatch {A : Type} (body : M A) (handler : string -> M A) : M A :=
  fun s =>
    match body s with
    | (Ret a, s') => (Ret a, s')
    | (Throw msg, s') => handler msg s'
    end.

Definition remote {A : Type} (c : Call) (f : World -> Exc A * World) : M A :=
  fun s =>
    let (r, w) := f (world s) in
    (r, {| world := w; calls := calls s ++ [c] |}).

(** [m] only ever adds calls to the record of calls. *)
Definition grows {A : Type} (m : M A) : Prop :=
  forall s, exists rest, calls (snd (m s)) = (calls s ++ rest)%list.

End Effects.

Notation "x <- m ;; k" := (bind m (fun x => k))
  (at level 61, m at next level, right associativity).

(** ** Calendar helpers *)

Section Program.
Context {E : Env}.

(** The [TypeError] of calling a string method on a value that is not a
    string. *)
Definition notAString (v : value) (method : string) : string :=
  match v with
  | VUndefined => "Cannot read properties of undefined (reading '" ++ method ++ "')"
  | VNull => "Cannot read properties of null (reading '" ++ method ++ "')"
  | _ => "time." ++ method ++ " is not a function"
  end.

(** [normalizeTime] and [formatTime] on whatever the caller passes. *)
Definition normalizeTime_any (time : value) : Exc string :=
  match time with
  | VStr s => normalizeTime s
  | _ => Throw (notAString time "match")
  end.

Definition formatTime_any (time : value) : Exc value :=
  if test hh_mm_re (str time) then Ret time
  else if test h_mm_re (str time) then
    match time with
    | VStr s => Ret (VStr (padStart 5 "0" s))
    | _ => Throw (notAString time "padStart")
    end
  else
    match time with
    | VStr s => Ret (VStr (match exec ampm_re s with Some m => convert12 m | None => s end))
    | _ => Throw (notAString time "match")
    end.

(** [new Date(s).toISOString()] *)
Definition isoString (s : string) : Exc string :=
  match Date_parse s with
  | Some t => Ret (toISOString t)
  | None => Throw "Invalid time value"
  end.

(** [a < b] and [a > b] on two [Date] objects; an invalid date compares false. *)
Definition date_lt (a b : option Z) : bool :=
  match a, b with
  | Some x, Some y => Z.ltb x y
  | _, _ => false
  end.
Definition date_gt (a b : option Z) : bool := date_lt b a.

(** [new Date(t.dateTime || t.date)] *)
Definition eventDate (t : EventTime) : option Z :=
  match dateTime t with
  | Some (String c s) => Date_parse (String c s)
  | _ => match date t with
         | Some s => Date_parse s
         | None => None
         end
  end.

(** The half-open rule of the specification: the event starts before the window ends and the window
    starts before the event ends. *)
Definition overlaps (e : Event) (W_start W_end : option Z) : Prop :=
  date_lt (eventDate (ev_start e)) W_end = true /\
  date_lt W_start (eventDate (ev_end e)) = true.

(** [response.data.items.length] *)
Definition itemsLength (response : ListResponse) : Exc nat :=
  match items response with
  | Some l => Ret (List.length l)
  | None => Throw "Cannot read properties of undefined (reading 'length')"
  end.

(** [checkAvailability] of the service-account server. *)
Definition checkAvailability (date startTime endTime : value) : M Availability :=
  tryCatch
    (formattedStart <- lift (normalizeTime_any startTime) ;;
     formattedEnd <- lift (normalizeTime_any endTime) ;;
     timeMin <- lift (isoString (str date ++ "T" ++ formattedStart ++ ":00-05:00")) ;;
     timeMax <- lift (isoString (str date ++ "T" ++ formattedEnd ++ ":00-05:00")) ;;
     let calendarId := orElse GOOGLE_CALENDAR_ID "primary" in
     let req := {| l_calendarId := calendarId; timeMin := timeMin;
                   timeMax := timeMax; singleEvents := true |} in
     response <- remote (CalendarList req) (events_list req) ;;
     let events := match items response with Some l => l | None => [] end in
     let requestStart := Date_parse timeMin in
     let requestEnd := Date_parse timeMax in
     let overlappingEvents :=
       filter (fun event =>
                 let eventStart := eventDate (ev_start event) in
                 let eventEnd := eventDate (ev_end event) in
                 date_lt eventStart requestEnd && date_gt eventEnd requestStart)
              events in
     let isAvailable := List.length overlappingEvents =? 0 in
     let debugInfo :=
       " [DEBUG: Found " ++ toString (Int (List.length events)) ++ " total events, "
       ++ toString (Int (List.length overlappingEvents)) ++ " overlapping]" in
     ret {| available := isAvailable;
            a_message :=
              if isAvailable
              then "Yes, " ++ str date ++ " from " ++ str startTime ++ " to "
                   ++ str endTime ++ " is available." ++ debugInfo
              else "Sorry, " ++ str date ++ " from " ++ str startTime ++ " to "
                   ++ str endTime ++ " is already booked." ++ debugInfo |})
    (fun error =>
       ret {| available := false;
              a_message := "Unable to check calendar availability at this time. Error: "
                           ++ error |}).

(** [checkAvailability] of index.js. *)
Definition checkAvailability_index (date startTime endTime : value) : M Availability :=
  tryCatch
    (formattedStart <- lift (formatTime_any startTime) ;;
     formattedEnd <- lift (formatTime_any endTime) ;;
     timeMin <- lift (isoString (str date ++ "T" ++ str formattedStart ++ ":00-05:00")) ;;
     timeMax <- lift (isoString (str date ++ "T" ++ str formattedEnd ++ ":00-05:00")) ;;
     let req := {| l_calendarId := "primary"; timeMin := timeMin;
                   timeMax := timeMax; singleEvents := true |} in
     response <- remote (CalendarList req) (events_list req) ;;
     n <- lift (itemsLength response) ;;
     let isAvailable := n =? 0 in
     ret {| available := isAvailable;
            a_message :=
              if isAvailable
              then "Yes, " ++ str date ++ " from " ++ str startTime ++ " to "
                   ++ str endTime ++ " is available."
              else "Sorry, " ++ str date ++ " from " ++ str startTime ++ " to "
                   ++ str endTime ++ " is already booked." |})
    (fun _ =>
       ret {| available := false;
              a_message := "Unable to check calendar availability at this time." |}).

(** [checkAvailability] of the conversational servers: a bare boolean. *)
Definition checkAvailability_conv (date startTime endTime : value) : M bool :=
  tryCatch
    (timeMin <- lift (isoString (str date ++ "T" ++ str startTime ++ ":00")) ;;
     timeMax <- lift (isoString (str date ++ "T" ++ str endTime ++ ":00")) ;;
     let req := {| l_calendarId := "primary"; timeMin := timeMin;
                   timeMax := timeMax; singleEvents := true |} in
     response <- remote (CalendarList req) (events_list req) ;;
     n <- lift (itemsLength response) ;;
     ret (n =? 0))
    (fun _ => ret false).

(** The fixed second attendee. *)
Definition operatorEmail : string := "rcmccoy10@gmail.com".

(** [bookAppointment] of the service-account server. *)
Definition bookAppointment (summary date startTime endTime description email : value)
  : M Booking :=
  let description := orDefault description (VStr "") in
  let email := orDefault email (VStr "") in
  tryCatch
    (formattedStart <- lift (normalizeTime_any startTime) ;;
     formattedEnd <- lift (normalizeTime_any endTime) ;;
     startISO <- lift (isoString (str date ++ "T" ++ formattedStart ++ ":00-05:00")) ;;
     endISO <- lift (isoString (str date ++ "T" ++ formattedEnd ++ ":00-05:00")) ;;
     let event :=
       {| summary := summary;
          description := description;
          start := {| e_dateTime := startISO; e_timeZone := "America/New_York" |};
          end_ := {| e_dateTime := endISO; e_timeZone := "America/New_York" |};
          attendees := if truthy email then Some [email; VStr operatorEmail] else None;
          sendUpdates := if truthy email then Some "all" else None |} in
     let calendarId := orElse GOOGLE_CALENDAR_ID "primary" in
     let req := {| i_calendarId := calendarId; resource := event |} in
     response <- remote (CalendarInsert req) (events_insert req) ;;
     ret {| success := true;
            message := Some ("Appointment booked successfully for " ++ str date ++ " from "
                             ++ str startTime ++ " to " ++ str endTime ++ ".");
            eventId := Some (id response);
            link := Some (htmlLink response);
            error := None |})
    (fun error =>
       ret {| success := false;
              message := Some ("Unable to book the appointment at this time. Error: "
                               ++ error);
              eventId := None; link := None; error := None |}).

(** [bookAppointment] of the conversational servers. *)
Definition bookAppointment_conv (summary date startTime endTime description : value)
  : M Booking :=
  let description := orDefault description (VStr "") in
  tryCatch
    (startISO <- lift (isoString (str date ++ "T" ++ str startTime ++ ":00")) ;;
     endISO <- lift (isoString (str date ++ "T" ++ str endTime ++ ":00")) ;;
     let event :=
       {| summary := summary;
          description := description;
          start := {| e_dateTime := startISO; e_timeZone := "America/New_York" |};
          end_ := {| e_dateTime := endISO; e_timeZone := "America/New_York" |};
          attendees := None;
          sendUpdates := None |} in
     let req := {| i_calendarId := "primary"; resource := event |} in
     response <- remote (CalendarInsert req) (events_insert req) ;;
     ret {| success := true; message := None;
            eventId := Some (id response); link := Some (htmlLink response);
            error := None |})
    (fun error =>
       ret {| success := false; message := None; eventId := None; link := None;
              error := Some error |}).

End Program.

(** ** The handlers *)

Section Handlers.
Context {E : Env}.

(** The names the loop of the tool webhook binds for one entry of
    [message.toolCalls]: [toolCallId], [name] and [args]. *)
Record ToolCall : Type := { tc_id : value; tc_name : value; tc_arguments : value }.

Record ToolResult : Type := { toolCallId : value; result : option string }.

Inductive Body : Type :=
| ErrorBody (message : string)            (* { error: { message, ... } } *)
| ChoicesBody (role content : string)     (* { choices: [{ message: { role, content } }] } *)
| ReceivedBody                            (* { received: true } *)
| ResultsBody (results : list ToolResult). (* { results } *)

Record Response : Type := { status : nat; body : Body }.

(** [res.json(b)] and [res.status(n).json(b)] *)
Definition json (b : Body) : Response := {| status := 200; body := b |}.
Definition statusJson (n : nat) (b : Body) : Response := {| status := n; body := b |}.

(** [const { id: toolCallId, function: func } = toolCall;
     const { name, arguments: args } = func;], the two statements that open
    the body of the loop, ahead of its [try]. *)
Definition destructure (toolCall : value) : M ToolCall :=
  toolCallId <- lift (prop "toolCall" toolCall "id") ;;
  func <- lift (prop "toolCall" toolCall "function") ;;
  name <- lift (prop "func" func "name") ;;
  args <- lift (prop "func" func "arguments") ;;
  ret {| tc_id := toolCallId; tc_name := name; tc_arguments := args |}.

(** The [try] and [catch] of the body of the loop. *)
Definition runToolCall (toolCall : ToolCall) : M ToolResult :=
  let toolCallId := tc_id toolCall in
  let name := tc_name toolCall in
  let args := tc_arguments toolCall in
  tryCatch
    (parsedArgs <- lift (match args with VStr s => JSON_parse s | _ => Ret args end) ;;
     result <-
       (if isString name "check_availability" then
          date <- lift (prop "parsedArgs" parsedArgs "date") ;;
          start_time <- lift (prop "parsedArgs" parsedArgs "start_time") ;;
          end_time <- lift (prop "parsedArgs" parsedArgs "end_time") ;;
          availabilityResult <- checkAvailability date start_time end_time ;;
          ret (Some (a_message availabilityResult))
        else if isString name "book_appointment" then
          summary <- lift (prop "parsedArgs" parsedArgs "summary") ;;
          date <- lift (prop "parsedArgs" parsedArgs "date") ;;
          start_time <- lift (prop "parsedArgs" parsedArgs "start_time") ;;
          end_time <- lift (prop "parsedArgs" parsedArgs "end_time") ;;
          description <- lift (prop "parsedArgs" parsedArgs "description") ;;
          email <- lift (prop "parsedArgs" parsedArgs "email") ;;
          bookingResult <- bookAppointment summary date start_time end_time description email ;;
          ret (message bookingResult)
        else ret (Some ("Unknown tool: " ++ str name))) ;;
     ret {| toolCallId := toolCallId; result := result |})
    (fun error =>
       ret {| toolCallId := toolCallId; result := Some ("Error: " ++ error) |}).

(** [for (const toolCall of message.toolCalls) { ... results.push(...) }] *)
Fixpoint forEachToolCall (toolCalls : list value) (results : list ToolResult)
  : M (list ToolResult) :=
  match toolCalls with
  | [] => ret results
  | toolCall :: rest =>
      call <- destructure toolCall ;;
      r <- runToolCall call ;;
      forEachToolCall rest (results ++ [r])
  end.

(** The tool webhook of the service-account server, on the parsed body of the
    request.  A handler that throws sends no answer. *)
Definition webhook (body : value) : M Response :=
  message <- lift (prop "req.body" body "message") ;;
  let toolCalls := optProp message "toolCalls" in
  if negb (truthy toolCalls) || isZero (lengthOf toolCalls) then
    ret (json ReceivedBody)
  else
    entries <- lift (iterate "message.toolCalls" toolCalls) ;;
    results <- forEachToolCall entries [] ;;
    ret (json (ResultsBody results)).

(** A body with the batch [toolCalls] under [message.toolCalls]. *)
Definition batch (toolCalls : value) : value :=
  VObj [("message", VObj [("type", VStr "tool-calls"); ("toolCalls", toolCalls)])].





(** One element of the array [req.body.messages]: [null], which JSON can put
    there and on which reading a property throws, or a message, of which the
    handler reads [role] and [content]. *)
Inductive Element : Type :=
| ENull
| EMsg (m : Message).

(** [req.body.messages] as the conversational handler tests it. *)
Inductive MessagesField : Type :=
| Missing                         (* undefined, null or another falsy value *)
| NotAnArray
| AnArray (messages : list Element).

Definition defaultPersona : string :=
  "You are a professional voice secretary. Keep responses brief (1-2 sentences).".

Definition isSystem (m : Message) : bool := String.eqb (role m) "system".

(** [messages.find(m => m.role === 'system')?.content || defaultPersona], on
    an array that holds messages only. *)
Definition systemMessage (messages : list Message) : string :=
  orElse (option_map content (find isSystem messages)) defaultPersona.

(** [m => ({ role: m.role === 'assistant' ? 'assistant' : 'user', content: m.content })] *)
Definition toClaude (m : Message) : Message :=
  {| role := if String.eqb (role m) "assistant" then "assistant" else "user";
     content := content m |}.

(** [messages.filter(m => m.role !== 'system').map(...)], on an array that
    holds messages only. *)
Definition claudeMessages (messages : list Message) : list Message :=
  map toClaude (filter (fun m => negb (isSystem m)) messages).

(** The [TypeError] of [m.role] on an element that is [null]. *)
Definition roleOfNull : string := "Cannot read properties of null (reading 'role')".

(** [messages.find(m => m.role === 'system')] on the elements: the callback
    runs on one element after the other until it answers true. *)
Fixpoint findSystem (messages : list Element) : Exc (option Message) :=
  match messages with
  | [] => Ret None
  | ENull :: _ => Throw roleOfNull
  | EMsg m :: rest => if isSystem m then Ret (Some m) else findSystem rest
  end.

(** [messages.filter(m => m.role !== 'system')] on the elements: the callback
    runs on every element, the first one first. *)
Fixpoint nonSystem (messages : list Element) : Exc (list Message) :=
  match messages with
  | [] => Ret []
  | ENull :: _ => Throw roleOfNull
  | EMsg m :: rest =>
      match nonSystem rest with
      | Ret kept => Ret (if negb (isSystem m) then m :: kept else kept)
      | Throw error => Throw error
      end
  end.

(** The messages of an array that holds no [null]. *)
Definition elements (l : list Message) : list Element := map EMsg l.

Definition isNull (m : Element) : bool :=
  match m with ENull => true | EMsg _ => false end.

(** The payload is an array with a [null] among its elements. *)
Definition holdsNull (messages : MessagesField) : bool :=
  match messages with
  | AnArray l => existsb isNull l
  | Missing | NotAnArray => false
  end.

(** A payload without a usable turn: no array of messages, an empty one, or
    system turns only. *)
Definition noUsableTurns (messages : MessagesField) : Prop :=
  match messages with
  | Missing | NotAnArray => True
  | AnArray l => exists turns, l = elements turns /\ forallb isSystem turns = true
  end.

(** A webhook call that carries no tool call: the body is an object whose
    [message?.toolCalls] is missing (or falsy in another way) or is the empty
    array. *)
Definition isPing (body : value) : Prop :=
  exists fields,
    body = VObj fields /\
    (truthy (optProp (lookup "message" fields) "toolCalls") = false \/
     optProp (lookup "message" fields) "toolCalls" = VArr []).

Definition asTurn (m : Message) : Turn :=
  {| t_role := role m; t_content := Plain (content m) |}.

Definition isText (b : Block) : bool :=
  match b with TextBlock _ => true | _ => false end.
Definition isToolUse (b : Block) : bool :=
  match b with ToolUseBlock _ _ _ => true | _ => false end.

(** [content.find(block => block.type === 'text')], then its text or [d]. *)
Definition firstText (blocks : list Block) (d : string) : string :=
  match find isText blocks with
  | Some (TextBlock text) => text
  | _ => d
  end.

(** The tool branch of the conversational handler. *)
Definition useTool (name : string) (input : value) : M ToolOutcome :=
  if String.eqb name "check_availability" then
    date <- lift (prop "toolUse.input" input "date") ;;
    start_time <- lift (prop "toolUse.input" input "start_time") ;;
    end_time <- lift (prop "toolUse.input" input "end_time") ;;
    isAvailable <- checkAvailability_conv date start_time end_time ;;
    ret (OutAvailability isAvailable
           (if isAvailable
            then str date ++ " from " ++ str start_time ++ " to " ++ str end_time
                 ++ " is available."
            else str date ++ " from " ++ str start_time ++ " to " ++ str end_time
                 ++ " is not available."))
  else if String.eqb name "book_appointment" then
    summary <- lift (prop "toolUse.input" input "summary") ;;
    date <- lift (prop "toolUse.input" input "date") ;;
    start_time <- lift (prop "toolUse.input" input "start_time") ;;
    end_time <- lift (prop "toolUse.input" input "end_time") ;;
    description <- lift (prop "toolUse.input" input "description") ;;
    b <- bookAppointment_conv summary date start_time end_time description ;;
    ret (OutBooking b)
  else ret OutNothing.

(** [handleConversation] from its second guard on: the canonical turns must
    not be empty, and the [try] block talks to the model.  The model name and
    the tool schema are constants of every request and are left out of
    [CreateRequest]. *)
Definition answerTurns (systemMessage : string) (claudeMessages : list Message)
  : M Response :=
  if List.length claudeMessages =? 0 then
    ret (statusJson 400 (ErrorBody "At least one non-system message required"))
  else
    tryCatch
      (let req := {| max_tokens := 200; system := systemMessage;
                     messages := map asTurn claudeMessages |} in
       response <- remote (ModelCreate req) (messages_create req) ;;
       if String.eqb (stop_reason response) "tool_use" then
         match find isToolUse (c_content response) with
         | Some (ToolUseBlock id name input) =>
             toolResult <- useTool name input ;;
             let req2 :=
               {| max_tokens := 150; system := systemMessage;
                  messages :=
                    map asTurn claudeMessages
                    ++ [ {| t_role := "assistant";
                            t_content := Blocks (c_content response) |};
                         {| t_role := "user";
                            t_content := Blocks [ToolResultBlock id toolResult] |} ] |} in
             finalResponse <- remote (ModelCreate req2) (messages_create req2) ;;
             ret (json (ChoicesBody "assistant"
                          (firstText (c_content finalResponse) "Done!")))
         | _ => lift (Throw "Cannot read properties of undefined (reading 'name')")
         end
       else
         ret (json (ChoicesBody "assistant"
                      (firstText (c_content response) "I'm here to help!"))))
      (fun error => ret (statusJson 500 (ErrorBody error))).

(** [handleConversation], the handler of [/chat/completions] and [/webhook] in
    the conversational server.  The system prompt and the canonical turns are
    read off the elements ahead of the [try]; a handler that throws sends no
    answer. *)
Definition handleConversation (messages : MessagesField) : M Response :=
  match messages with
  | Missing | NotAnArray | AnArray [] =>
      ret (statusJson 400 (ErrorBody "No valid messages provided"))
  | AnArray messages =>
      found <- lift (findSystem messages) ;;
      let systemMessage := orElse (option_map content found) defaultPersona in
      kept <- lift (nonSystem messages) ;;
      let claudeMessages := map toClaude kept in
      answerTurns systemMessage claudeMessages
  end.

End Handlers.

(** ** A small environment to run the code in

    Times are "YYYY-MM-DDTHH:MM..." strings read as minutes of the day; the
    calendar is the list of its events and [events.list] returns all of them,
    whatever the bounds; the model always answers with one sentence. *)

Definition minutesOfDay (s : string) : option Z :=
  match parseInt (Some (substring 11 2 s)), parseInt (Some (substring 14 2 s)) with
  | Int h, Int m => if (h <? 24) && (m <? 60) then Some (Z.of_nat (60 * h + m)) else None
  | _, _ => None
  end.

Definition isoOfMinutes (t : Z) : string :=
  let n := Z.to_nat t in
  "2025-01-10T" ++ padStart 2 "0" (toString (Int (n / 60))) ++ ":"
  ++ padStart 2 "0" (toString (Int (n mod 60))) ++ ":00.000Z".

Definition demoEnv : Env :=
  {| World := list Event;
     Date_parse := minutesOfDay;
     toISOString := isoOfMinutes;
     JSON_parse := fun s =>
       if String.eqb s "{}" then Ret (VObj [])
       else Throw ("Unexpected token in JSON: " ++ s);
     GOOGLE_CALENDAR_ID := None;
     events_list := fun _ w => (Ret {| items := Some w |}, w);
     events_insert := fun req w =>
       (Ret {| id := "evt1"; htmlLink := "https://calendar.example/evt1" |},
        (w ++ [ {| ev_summary := str (summary (resource req));
                   ev_start := {| dateTime := Some (e_dateTime (start (resource req)));
                                  date := None |};
                   ev_end := {| dateTime := Some (e_dateTime (end_ (resource req)));
                                date := None |} |} ])%list);
     messages_create := fun _ w =>
       (Ret {| stop_reason := "end_turn"; c_content := [TextBlock "Sure."] |}, w) |}.

(** The same environment with a calendar whose [events.insert] is rejected. *)
Definition failingEnv : Env :=
  {| World := list Event;
     Date_parse := minutesOfDay;
     toISOString := isoOfMinutes;
     JSON_parse := @JSON_parse demoEnv;
     GOOGLE_CALENDAR_ID := None;
     events_list := @events_list demoEnv;
     events_insert := fun _ w => (Throw "Forbidden", w);
     messages_create := @messages_create demoEnv |}.

Definition demoState (events : list Event) : @State demoEnv :=
  @Build_State demoEnv events [].

Definition failingState (events : list Event) : @State failingEnv :=
  @Build_State failingEnv events [].

(** An entry of [message.toolCalls] as the platform sends it. *)
Definition toolCallEntry (id name : string) (args : value) : value :=
  VObj [("id", VStr id); ("type", VStr "function");
        ("function", VObj [("name", VStr name); ("arguments", args)])].

(** A well-formed invocation with structured arguments, one whose argument
    string is not JSON, and an entry without [function]. *)
Definition goodCall : value :=
  toolCallEntry "call_1" "check_availability"
    (VObj [("date", VStr "2025-01-10"); ("start_time", VStr "2 PM");
           ("end_time", VStr "3 PM")]).

Definition badCall : value :=
  toolCallEntry "call_2" "book_appointment" (VStr "{oops").


(** An event from 13:00 to 14:00. *)
Definition lunch : Event :=
  {| ev_summary := "Lunch";
     ev_start := {| dateTime := Some "2025-01-10T13:00:00-05:00"; date := None |};
     ev_end := {| dateTime := Some "2025-01-10T14:00:00-05:00"; date := None |} |}.

(** An environment whose model is down, and one whose model first asks for
    [check_availability] and then answers in words. *)
Definition brokenModelEnv : Env :=
  {| World := list Event;
     Date_parse := minutesOfDay;
     toISOString := isoOfMinutes;
     JSON_parse := @JSON_parse demoEnv;
     GOOGLE_CALENDAR_ID := None;
     events_list := @events_list demoEnv;
     events_insert := @events_insert demoEnv;
     messages_create := fun _ w => (Throw "Overloaded", w) |}.

Definition askedTool : Block :=
  ToolUseBlock "toolu_1" "check_availability"
    (VObj [("date", VStr "2025-01-10"); ("start_time", VStr "14:00");
           ("end_time", VStr "15:00")]).

Definition toolEnv : Env :=
  {| World := list Event;
     Date_parse := minutesOfDay;
     toISOString := isoOfMinutes;
     JSON_parse := @JSON_parse demoEnv;
     GOOGLE_CALENDAR_ID := None;
     events_list := @events_list demoEnv;
     events_insert := @events_insert demoEnv;
     messages_create := fun req w =>
       if max_tokens req =? 200
       then (Ret {| stop_reason := "tool_use"; c_content := [askedTool] |}, w)
       else (Ret {| stop_reason := "end_turn"; c_content := [TextBlock "It is free."] |}, w) |}.

Definition hello : list Message := [ {| role := "user"; content := "Hi" |} ].

(** A calendar that honours the bounds of a list request, as the remote one
    does: it returns the events that end after [timeMin] and start before
    [timeMax]. *)
Definition inBounds (req : ListRequest) (e : Event) : bool :=
  date_lt (minutesOfDay (timeMin req)) (eventDate (E := demoEnv) (ev_end e))
  && date_lt (eventDate (E := demoEnv) (ev_start e)) (minutesOfDay (timeMax req)).

Definition windowEnv : Env :=
  {| World := list Event;
     Date_parse := minutesOfDay;
     toISOString := isoOfMinutes;
     JSON_parse := @JSON_parse demoEnv;
     GOOGLE_CALENDAR_ID := None;
     events_list := fun req w => (Ret {| items := Some (filter (inBounds req) w) |}, w);
     events_insert := @events_insert demoEnv;
     messages_create := @messages_create demoEnv |}.

(** ** The conversational webhook of the OAuth server

    [app.post('/webhook')] of the server that reads
    [message.messagesOpenAIFormatted]; it answers in the
    [{ results: [{ role, content }] }] envelope. *)

Section ConversationalWebhook.
Context {E : Env}.

Inductive VapiBody : Type :=
| VapiResults (role content : string)   (* { results: [{ role, content }] } *)
| VapiError (error : string).           (* { error } *)

Record VapiResponse : Type := { v_status : nat; v_body : VapiBody }.

(** The tool branch of this webhook. *)
Definition useTool_vapi (name : string) (input : value) : M ToolOutcome :=
  if String.eqb name "check_availability" then
    date <- lift (prop "toolUse.input" input "date") ;;
    start_time <- lift (prop "toolUse.input" input "start_time") ;;
    end_time <- lift (prop "toolUse.input" input "end_time") ;;
    isAvailable <- checkAvailability_conv date start_time end_time ;;
    ret (OutAvailability isAvailable
           (if isAvailable
            then "Yes, " ++ str date ++ " from " ++ str start_time ++ " to "
                 ++ str end_time ++ " is available."
            else "Sorry, " ++ str date ++ " from " ++ str start_time ++ " to "
                 ++ str end_time ++ " is not available."))
  else if String.eqb name "book_appointment" then
    summary <- lift (prop "toolUse.input" input "summary") ;;
    date <- lift (prop "toolUse.input" input "date") ;;
    start_time <- lift (prop "toolUse.input" input "start_time") ;;
    end_time <- lift (prop "toolUse.input" input "end_time") ;;
    description <- lift (prop "toolUse.input" input "description") ;;
    b <- bookAppointment_conv summary date start_time end_time description ;;
    ret (OutBooking b)
  else ret OutNothing.

(** [messagesOpenAIFormatted] is [message?.messagesOpenAIFormatted], read here
    as a list of messages; [None] when it is missing, and then [[]] is used. *)
Definition webhook_conv (messagesOpenAIFormatted : option (list Message)) : M VapiResponse :=
  let messages := match messagesOpenAIFormatted with Some l => l | None => [] end in
  let claudeMessages := claudeMessages messages in
  let systemMessage := systemMessage messages in
  tryCatch
    (let req := {| max_tokens := 200; system := systemMessage;
                   messages := map asTurn claudeMessages |} in
     response <- remote (ModelCreate req) (messages_create req) ;;
     if String.eqb (stop_reason response) "tool_use" then
       match find isToolUse (c_content response) with
       | Some (ToolUseBlock id name input) =>
           toolResult <- useTool_vapi name input ;;
           let req2 :=
             {| max_tokens := 150; system := systemMessage;
                messages :=
                  map asTurn claudeMessages
                  ++ [ {| t_role := "assistant";
                          t_content := Blocks (c_content response) |};
                       {| t_role := "user";
                          t_content := Blocks [ToolResultBlock id toolResult] |} ] |} in
           finalResponse <- remote (ModelCreate req2) (messages_create req2) ;;
           ret {| v_status := 200;
                  v_body := VapiResults "assistant"
                              (firstText (c_content finalResponse) "Done!") |}
       | _ => lift (Throw "Cannot read properties of undefined (reading 'name')")
       end
     else
       ret {| v_status := 200;
              v_body := VapiResults "assistant"
                          (firstText (c_content response) "I'm here to help!") |})
    (fun error => ret {| v_status := 500; v_body := VapiError error |}).

End ConversationalWebhook.

(** ** Counting remote calls *)

Definition isList (c : Call) : bool :=
  match c with CalendarList _ => true | _ => false end.
Definition isInsert (c : Call) : bool :=
  match c with CalendarInsert _ => true | _ => false end.
Definition isModel (c : Call) : bool :=
  match c with ModelCreate _ => true | _ => false end.
Definition isCalendar (c : Call) : bool := negb (isModel c).

Section Counting.
Context {E : Env}.

(** [m] only adds calls, and at most [n] of the added calls satisfy [P]. *)
Definition addsAtMost {A : Type} (P : Call -> bool) (n : nat) (m : M A) : Prop :=
  forall s, exists rest,
    calls (snd (m s)) = (calls s ++ rest)%list /\ List.length (filter P rest) <= n.

(** The calendar shows what was inserted.  After a successful insert of an
    event that starts before it ends, the list request that asks the same
    calendar for exactly the window of that event (the request
    [checkAvailability] sends for it) returns, when it succeeds, an event whose
    start and end are the instants of the inserted event.  Nothing is asked of
    any other list request. *)
Definition readAfterWrite : Prop :=
  forall q w resp w' lresp w'',
    events_insert q w = (Ret resp, w') ->
    date_lt (Date_parse (e_dateTime (start (resource q))))
            (Date_parse (e_dateTime (end_ (resource q)))) = true ->
    events_list {| l_calendarId := i_calendarId q;
                   timeMin := e_dateTime (start (resource q));
                   timeMax := e_dateTime (end_ (resource q));
                   singleEvents := true |} w' = (Ret lresp, w'') ->
    exists e l,
      items lresp = Some l /\ In e l /\
      eventDate (ev_start e) = Date_parse (e_dateTime (start (resource q))) /\
      eventDate (ev_end e) = Date_parse (e_dateTime (end_ (resource q))).

(** [m] only adds calls, and every call it adds satisfies [Q]. *)
Definition addsOnly {A : Type} (Q : Call -> Prop) (m : M A) : Prop :=
  forall s, exists rest,
    calls (snd (m s)) = (calls s ++ rest)%list /\ Forall Q rest.

(** Whatever [m] returns satisfies [Q]. *)
Definition returnsOnly {A : Type} (Q : A -> Prop) (m : M A) : Prop :=
  forall s a s', m s = (Ret a, s') -> Q a.

End Counting.

(** * Theorems *)

(** ** Strings *)

Lemma append_nil_r (s : string) : s ++ "" = s.
Proof. induction s as [|a s IH]; simpl; [reflexivity | now rewrite IH]. Qed.

Lemma append_assoc (s t u : string) : (s ++ t) ++ u = s ++ t ++ u.
Proof. induction s as [|a s IH]; simpl; [reflexivity | now rewrite IH]. Qed.

Lemma length_append (s t : string) :
  String.length (s ++ t) = String.length s + String.length t.
Proof. induction s as [|a s IH]; simpl; [reflexivity | now rewrite IH]. Qed.

Lemma substring_prefix (w rest : string) :
  substring 0 (String.length w) (w ++ rest) = w.
Proof.
  induction w as [|a w IH]; simpl.
  - destruct rest; reflexivity.
  - now rewrite IH.
Qed.

Lemma prefix_append (s post : string) : String.prefix s (s ++ post) = true.
Proof.
  induction s as [|b s IH]; simpl.
  - destruct post; reflexivity.
  - destruct (ascii_dec b b) as [_|n]; [exact IH | now destruct n].
Qed.

Lemma includes_prefix (t s : string) : String.prefix t s = true -> includes t s = true.
Proof. destruct s; simpl; intros ->; reflexivity. Qed.

Lemma includes_cons (t : string) (a : ascii) (s : string) :
  includes t s = true -> includes t (String a s) = true.
Proof.
  intros H. cbn [includes]. rewrite H.
  destruct (String.prefix t (String a s)); reflexivity.
Qed.

Lemma includes_infix (pre s post : string) : includes s (pre ++ s ++ post) = true.
Proof.
  induction pre as [|a pre IH]; cbn [append].
  - apply includes_prefix, prefix_append.
  - apply includes_cons, IH.
Qed.

(** ** The matcher against the meaning of patterns *)

Section MatcherFacts.
Context {R : Type}.
Implicit Types (k : @cont R) (x : R).

Lemma star_sound p : forall s pos c k x,
  star p pos s c k = Some x ->
  exists w rest, s = w ++ rest /\ sem (Star p) pos w rest c c /\
                 k (pos + String.length w) rest c = Some x.
Proof.
  induction s as [|a s IH]; intros pos c k x H; simpl in H.
  - exists "", "". rewrite Nat.add_0_r. repeat split; [constructor | exact H].
  - destruct (p a) eqn:Pa.
    + destruct (star p (S pos) s c k) as [y|] eqn:E.
      * injection H as ->. apply IH in E as (w & rest & -> & Hs & Hk).
        exists (String a w), rest. simpl. rewrite Nat.add_succ_r.
        repeat split; [now constructor | exact Hk].
      * exists "", (String a s). rewrite Nat.add_0_r.
        repeat split; [constructor | exact H].
    + exists "", (String a s). rewrite Nat.add_0_r.
      repeat split; [constructor | exact H].
Qed.

Lemma rmatch_sound r : forall pos s c k x,
  rmatch r pos s c k = Some x ->
  exists w rest c', s = w ++ rest /\ sem r pos w rest c c' /\
                    k (pos + String.length w) rest c' = Some x.
Proof.
  induction r as [p|r1 IH1 r2 IH2|r1 IH1 r2 IH2|r IH|p|i r IH| |];
    intros pos s c k x H; simpl in H.
  - destruct s as [|a s]; [discriminate|]. destruct (p a) eqn:Pa; [|discriminate].
    exists (String a ""), s, c. simpl. rewrite Nat.add_1_r.
    repeat split; [now constructor | exact H].
  - apply IH1 in H as (w1 & rest1 & c1 & -> & H1 & H).
    apply IH2 in H as (w2 & rest & c2 & -> & H2 & H).
    exists (w1 ++ w2), rest, c2. rewrite append_assoc, length_append, Nat.add_assoc.
    repeat split; [econstructor; eassumption | exact H].
  - destruct (rmatch r1 pos s c k) as [y|] eqn:E.
    + injection H as ->. apply IH1 in E as (w & rest & c' & -> & Hs & Hk).
      exists w, rest, c'. repeat split; [now apply sem_alt_l | exact Hk].
    + apply IH2 in H as (w & rest & c' & -> & Hs & Hk).
      exists w, rest, c'. repeat split; [now apply sem_alt_r | exact Hk].
  - destruct (rmatch r pos s c k) as [y|] eqn:E.
    + injection H as ->. apply IH in E as (w & rest & c' & -> & Hs & Hk).
      exists w, rest, c'. repeat split; [now apply sem_opt_some | exact Hk].
    + exists "", s, c. rewrite Nat.add_0_r.
      repeat split; [apply sem_opt_none | exact H].
  - apply star_sound in H as (w & rest & -> & Hs & Hk). now exists w, rest, c.
  - apply IH in H as (w & rest & c' & -> & Hs & Hk).
    replace (pos + String.length w - pos) with (String.length w) in Hk by lia.
    rewrite substring_prefix in Hk.
    exists w, rest, ((i, w) :: c'). repeat split; [now constructor | exact Hk].
  - destruct pos; [|discriminate]. exists "", s, c.
    repeat split; [constructor | exact H].
  - destruct s; [|discriminate]. exists "", "", c. rewrite Nat.add_0_r.
    repeat split; [constructor | exact H].
Qed.

Lemma rmatch_complete r pos w rest c c' :
  sem r pos w rest c c' ->
  forall k, k (pos + String.length w) rest c' <> None ->
            rmatch r pos (w ++ rest) c k <> None.
Proof.
  induction 1 as [p a pos rest c Pa
                 |r1 r2 pos w1 w2 rest c c1 c2 _ IH1 _ IH2
                 |r1 r2 pos w rest c c' _ IH
                 |r1 r2 pos w rest c c' _ IH
                 |r pos w rest c c' _ IH
                 |r pos rest c
                 |p pos rest c
                 |p a pos w rest c Pa _ IH
                 |i r pos w rest c c' _ IH
                 |rest c
                 |pos c]; intros k Hk; simpl.
  - rewrite Pa. simpl in Hk. now rewrite Nat.add_1_r in Hk.
  - rewrite append_assoc. apply IH1. apply IH2.
    now rewrite length_append, Nat.add_assoc in Hk.
  - specialize (IH k Hk). now destruct (rmatch r1 pos (w ++ rest) c k).
  - specialize (IH k Hk). now destruct (rmatch r1 pos (w ++ rest) c k).
  - specialize (IH k Hk). now destruct (rmatch r pos (w ++ rest) c k).
  - rewrite Nat.add_0_r in Hk. now destruct (rmatch r pos rest c k).
  - rewrite Nat.add_0_r in Hk. destruct rest as [|a rest]; simpl; [exact Hk|].
    destruct (p a); [|exact Hk]. now destruct (star p (S pos) rest c k).
  - rewrite Pa. simpl in Hk, IH. rewrite Nat.add_succ_r in Hk.
    specialize (IH k Hk). now destruct (star p (S pos) (w ++ rest) c k).
  - apply IH.
    replace (pos + String.length w - pos) with (String.length w) by lia.
    now rewrite substring_prefix.
  - exact Hk.
  - rewrite Nat.add_0_r in Hk. exact Hk.
Qed.
End MatcherFacts.

Lemma search_sound {R : Type} (r : regex) : forall s pos (k : @cont R) x,
  search r pos s k = Some x ->
  exists pre w rest c', s = pre ++ w ++ rest /\
    sem r (pos + String.length pre) w rest [] c' /\
    k (pos + String.length pre + String.length w) rest c' = Some x.
Proof.
  induction s as [|a s IH]; intros pos k x H; simpl in H.
  - destruct (rmatch r pos "" [] k) as [y|] eqn:E; [|discriminate].
    injection H as ->. apply rmatch_sound in E as (w & rest & c' & Hs & Hsem & Hk).
    exists "", w, rest, c'. simpl. rewrite Nat.add_0_r. auto.
  - destruct (rmatch r pos (String a s) [] k) as [y|] eqn:E.
    + injection H as ->. apply rmatch_sound in E as (w & rest & c' & Hs & Hsem & Hk).
      exists "", w, rest, c'. simpl. rewrite Nat.add_0_r. auto.
    + apply IH in H as (pre & w & rest & c' & -> & Hsem & Hk).
      exists (String a pre), w, rest, c'. simpl. rewrite Nat.add_succ_r. auto.
Qed.

Lemma search_complete {R : Type} (r : regex) (w rest : string) (c' : captures)
      (k : @cont R) : forall pre pos,
  sem r (pos + String.length pre) w rest [] c' ->
  k (pos + String.length pre + String.length w) rest c' <> None ->
  search r pos (pre ++ w ++ rest) k <> None.
Proof.
  induction pre as [|a pre IH]; intros pos Hsem Hk; simpl in Hsem, Hk.
  - rewrite Nat.add_0_r in Hsem, Hk. cbn [append].
    pose proof (rmatch_complete _ _ _ _ _ _ Hsem k Hk) as Hm.
    destruct (w ++ rest); simpl; destruct (rmatch r pos _ [] k); congruence.
  - rewrite Nat.add_succ_r in Hsem, Hk. specialize (IH (S pos) Hsem Hk).
    simpl. now destruct (rmatch r pos (String a (pre ++ w ++ rest)) [] k).
Qed.

Lemma exec_sound (r : regex) (s : string) (m : captures) :
  exec r s = Some m -> matchesSomewhere r s m.
Proof.
  intros H. apply search_sound in H as (pre & w & rest & c' & -> & Hsem & Hk).
  injection Hk as ->. now exists pre, w, rest.
Qed.

Lemma exec_complete (r : regex) (s : string) (m : captures) :
  matchesSomewhere r s m -> exec r s <> None.
Proof.
  intros (pre & w & rest & -> & Hsem). now apply search_complete with (c' := m).
Qed.

Lemma exec_none (r : regex) (s : string) :
  exec r s = None <-> forall m, ~ matchesSomewhere r s m.
Proof.
  split.
  - intros H m Hm. now apply exec_complete in Hm.
  - intros H. destruct (exec r s) as [m|] eqn:E; [|reflexivity].
    now apply exec_sound, H in E.
Qed.

(** ** Character classes *)

Lemma isDigit_cases (a : ascii) :
  isDigit a = true ->
  In a ["0"; "1"; "2"; "3"; "4"; "5"; "6"; "7"; "8"; "9"]%char.
Proof.
  destruct a as [[] [] [] [] [] [] [] []]; cbv; intros H; try discriminate H; tauto.
Qed.

Lemma lit_eq (x a : ascii) : lit x a = true -> a = x.
Proof. intros H. symmetry. now apply Ascii.eqb_eq. Qed.

Lemma ci_upper (x a : ascii) : ci x a = true -> upper a = upper x.
Proof. intros H. symmetry. now apply Ascii.eqb_eq. Qed.

Ltac inv H := inversion H; subst; clear H.

(** Invert every hypothesis on a pattern whose head is not a star. *)
Ltac inv_sem :=
  repeat match goal with
         | H : sem (Chr _) _ _ _ _ _ |- _ => inv H
         | H : sem (_ @ _) _ _ _ _ _ |- _ => inv H
         | H : sem (Alt _ _) _ _ _ _ _ |- _ => inv H
         | H : sem (Opt _) _ _ _ _ _ |- _ => inv H
         | H : sem (Grp _ _) _ _ _ _ _ |- _ => inv H
         | H : sem Bol _ _ _ _ _ |- _ => inv H
         | H : sem Eol _ _ _ _ _ |- _ => inv H
         end.

Ltac use_classes :=
  repeat match goal with
         | H : lit _ _ = true |- _ => apply lit_eq in H; subst
         | H : ci _ _ = true |- _ =>
             apply ci_upper in H;
             match type of H with _ = ?r => let r' := eval cbv in r in change r with r' in H end
         | H : _ = true |- _ => rewrite H
         | H : upper _ = _ |- _ => rewrite H
         end.

Lemma allChars_app (p : ascii -> bool) (s t : string) :
  allChars p (s ++ t) = allChars p s && allChars p t.
Proof. induction s as [|a s IH]; simpl; [reflexivity | now rewrite IH, andb_assoc]. Qed.

Lemma anyChar_app (p : ascii -> bool) (s t : string) :
  anyChar p (s ++ t) = anyChar p s || anyChar p t.
Proof. induction s as [|a s IH]; simpl; [reflexivity | now rewrite IH, orb_assoc]. Qed.

Lemma allChars_anyChar (q p : ascii -> bool) (s : string) :
  (forall a, q a = true -> p a = false) ->
  allChars q s = true -> anyChar p s = false.
Proof.
  intros Hqp. induction s as [|a s IH]; simpl; [reflexivity|].
  intros [Ha Hs]%andb_prop. now rewrite (Hqp a Ha), IH.
Qed.

Lemma star_shape (p : ascii -> bool) (pos : nat) (w rest : string) (c c' : captures) :
  sem (Star p) pos w rest c c' -> c' = c /\ allChars p w = true.
Proof.
  remember (Star p) as r eqn:Er. induction 1; try discriminate; injection Er as ->.
  - now split.
  - split; [reflexivity|]. simpl. rewrite H. now apply IHsem.
Qed.

Ltac digit_string :=
  first [ left; split; [reflexivity|] | right; split; [reflexivity|] | split; [reflexivity|] ];
  simpl; use_classes; reflexivity.

Lemma hhmm_shape (pos : nat) (w rest : string) (m : captures) :
  sem hhmm_re pos w rest [] m ->
  exists h mm, m = [(2, mm); (1, h)] /\ pos = 0 /\ rest = "" /\ w = h ++ ":" ++ mm /\
    (digitString 1 h \/ digitString 2 h) /\ digitString 2 mm.
Proof.
  unfold hhmm_re, digit. intros H. inv_sem;
    (eexists _, _; split; [reflexivity|]; split; [reflexivity|]; split; [reflexivity|];
     split; [simpl; use_classes; reflexivity|]; split; digit_string).
Qed.

Lemma ampm_shape (pos : nat) (w rest : string) (m : captures) :
  sem ampm_re pos w rest [] m ->
  exists h ap,
    group m 1 = Some h /\ group m 3 = Some ap /\
    (digitString 1 h \/ digitString 2 h) /\
    (group m 2 = None \/ exists mm, group m 2 = Some mm /\ digitString 2 mm) /\
    (toUpperCase ap = "AM" \/ toUpperCase ap = "PM") /\
    anyChar (ci "M") w = true.
Proof.
  unfold ampm_re, digit. intros H. inv_sem;
    match goal with
    | H : sem (Star _) _ _ _ _ _ |- _ => apply star_shape in H as [-> _]
    end;
    (eexists _, _; split; [reflexivity|]; split; [reflexivity|]; split; [digit_string|];
     split; [first [ left; reflexivity | right; eexists; split; [reflexivity | digit_string] ]|];
     split; [simpl; use_classes; first [left; reflexivity | right; reflexivity]|]);
    rewrite ?anyChar_app; simpl; unfold ci; use_classes; simpl;
    rewrite ?orb_true_r; reflexivity.
Qed.

(** ** Digits and numbers *)

Lemma digitString_1 (s : string) :
  digitString 1 s -> exists a, s = String a "" /\ isDigit a = true.
Proof.
  intros [Hl Hd]. destruct s as [|a [|b s]]; try discriminate Hl.
  simpl in Hd. rewrite andb_true_r in Hd. now exists a.
Qed.

Lemma digitString_2 (s : string) :
  digitString 2 s ->
  exists a b, s = String a (String b "") /\ isDigit a = true /\ isDigit b = true.
Proof.
  intros [Hl Hd]. destruct s as [|a [|b [|c s]]]; try discriminate Hl.
  simpl in Hd. rewrite andb_true_r in Hd. apply andb_prop in Hd as [Ha Hb].
  now exists a, b.
Qed.

(** Split a digit hypothesis into its ten cases. *)
Ltac digit_cases H :=
  apply isDigit_cases in H; simpl in H;
  repeat (destruct H as [<-|H]); [..|contradiction H].

(** Name the one or two digits of an hour and the two digits of a minute. *)
Ltac name_digits :=
  repeat match goal with
         | H : digitString 1 _ \/ digitString 2 _ |- _ => destruct H as [H|H]
         | H : digitString 1 _ |- _ => apply digitString_1 in H as (? & -> & ?)
         | H : digitString 2 _ |- _ => apply digitString_2 in H as (? & ? & -> & ? & ?)
         end.

Lemma hour_digits_value (hh : string) :
  digitString 1 hh \/ digitString 2 hh ->
  exists h, parseInt (Some hh) = Int h /\ h < 100 /\
            padStart 2 "0" (toString (Int h)) = padStart 2 "0" hh.
Proof.
  intros H. name_digits.
  - digit_cases H; eexists; (split; [reflexivity|]);
      (split; [apply Nat.ltb_lt|]); reflexivity.
  - digit_cases H; digit_cases H0; eexists; (split; [reflexivity|]);
      (split; [apply Nat.ltb_lt|]); reflexivity.
Qed.

Lemma digit_or_colon_not_M (a : ascii) :
  isDigit a || lit ":" a = true -> ci "M" a = false.
Proof.
  destruct a as [[] [] [] [] [] [] [] []]; cbv; intros H; try discriminate H; reflexivity.
Qed.

Lemma allChars_weaken (p q : ascii -> bool) (s : string) :
  (forall a, p a = true -> q a = true) -> allChars p s = true -> allChars q s = true.
Proof.
  intros Hpq. induction s as [|a s IH]; simpl; [reflexivity|].
  intros [Ha Hs]%andb_prop. now rewrite (Hpq a Ha), IH.
Qed.

Lemma length_0_nil (s : string) : String.length s = 0 -> s = "".
Proof. now destruct s. Qed.

(** A string matched by [hhmm_re] has no match of [ampm_re]: it holds no
    letter. *)
Lemma hhmm_excludes_ampm (time : string) (m : captures) :
  exec hhmm_re time = Some m -> exec ampm_re time = None.
Proof.
  intros (pre & w & rest & -> & Hsem)%exec_sound.
  apply hhmm_shape in Hsem as (h & mm & _ & Hpos & -> & -> & Hh & [_ Hmm]).
  apply length_0_nil in Hpos as ->. cbn [append]. rewrite append_nil_r.
  apply exec_none. intros m' (pre & w & rest & E & Hsem).
  apply ampm_shape in Hsem as (_ & _ & _ & _ & _ & _ & _ & HM).
  assert (Hall : allChars (fun a => isDigit a || lit ":" a) (h ++ ":" ++ mm) = true).
  { assert (Hw : forall s, allChars isDigit s = true ->
                           allChars (fun a => isDigit a || lit ":" a) s = true).
    { intros s. apply allChars_weaken. now intros a ->. }
    rewrite !allChars_app, (Hw mm Hmm).
    destruct Hh as [[_ Hh]|[_ Hh]]; now rewrite (Hw h Hh). }
  apply (allChars_anyChar _ (ci "M") _ digit_or_colon_not_M) in Hall.
  cbn [append] in Hall.
  rewrite E, !anyChar_app, HM, orb_true_r in Hall. discriminate Hall.
Qed.

Lemma exec_hhmm (hh mm : string) :
  digitString 1 hh \/ digitString 2 hh -> digitString 2 mm ->
  exec hhmm_re (hh ++ ":" ++ mm) = Some [(2, mm); (1, hh)].
Proof.
  intros H Hmm. name_digits; unfold exec, hhmm_re, digit; cbn; use_classes; cbn;
    use_classes; reflexivity.
Qed.

(** ** [normalizeTime] *)

Lemma normalizeTime_ampm (time : string) (m : captures) :
  exec ampm_re time = Some m -> normalizeTime time = Ret (convert12 m).
Proof.
  intros H. unfold normalizeTime. rewrite H.
  destruct (exec hhmm_re time) as [m'|] eqn:E; [|reflexivity].
  apply hhmm_excludes_ampm in E. congruence.
Qed.

Lemma normalizeTime_hhmm (hh mm : string) (h : nat) :
  digitString 1 hh \/ digitString 2 hh -> digitString 2 mm ->
  parseInt (Some hh) = Int h -> h < 24 ->
  normalizeTime (hh ++ ":" ++ mm) = Ret (padStart 2 "0" hh ++ ":" ++ mm).
Proof.
  intros Hh Hmm Hp Hlt. unfold normalizeTime. rewrite (exec_hhmm _ _ Hh Hmm).
  cbn [group Nat.eqb splice]. rewrite Hp. cbn [geb ltb Nat.leb andb].
  apply Nat.ltb_lt in Hlt. rewrite Hlt.
  destruct (hour_digits_value _ Hh) as (h' & Hp' & _ & <-). congruence.
Qed.

Lemma pad2_two_digits (n : nat) :
  10 <= n < 200 -> padStart 2 "0" (toString (Int n)) = toString (Int n).
Proof.
  intros Hn.
  assert (Hall : forallb (fun n => String.eqb (padStart 2 "0" (toString (Int n)))
                                              (toString (Int n))) (seq 10 190) = true)
    by (vm_compute; reflexivity).
  rewrite forallb_forall in Hall. apply String.eqb_eq, Hall, in_seq. lia.
Qed.

(** What [convert12] computes from a match of [ampm_re]. *)
Lemma convert12_rule (pos : nat) (w rest : string) (m : captures) :
  sem ampm_re pos w rest [] m ->
  exists h period,
    parseInt (group m 1) = Int h /\ h < 100 /\
    toUpperCase (splice (group m 3)) = period /\ (period = "AM" \/ period = "PM") /\
    orElse (group m 2) "00" = match group m 2 with Some mm => mm | None => "00" end /\
    convert12 m =
      padStart 2 "0" (toString (Int (hour24 period h))) ++ ":" ++ orElse (group m 2) "00".
Proof.
  intros (hh & ap & H1 & H3 & Hh & H2 & Hap & _)%ampm_shape.
  destruct (hour_digits_value _ Hh) as (h & Hp & Hlt & _).
  exists h, (toUpperCase ap). unfold convert12. rewrite H1, H3, Hp. cbn [splice].
  repeat split; try assumption.
  - destruct H2 as [->|(mm & -> & Hmm)]; [reflexivity|].
    apply digitString_2 in Hmm as (a & b & -> & _). reflexivity.
  - unfold hour24. destruct Hap as [-> | ->]; cbn [String.eqb Ascii.eqb Bool.eqb andb JS.eqb];
      destruct (h =? 12) eqn:E; cbn [negb andb add JS.eqb]; rewrite ?E; reflexivity.
Qed.

(** C5. [normalizeTime] maps "7 PM" to "19:00", "12 AM" to "00:00" and "9:05"
    to "09:05", and throws the invalid-time error on "25:00".  On every input
    with an AM/PM match, the result is built by the 12-hour rule: PM and an hour
    other than 12 add 12, AM and hour 12 give hour 0, and minutes that were
    left out become "00". *)
Theorem normalizeTime_examples_and_12h_rule :
  normalizeTime "7 PM" = Ret "19:00" /\
  normalizeTime "12 AM" = Ret "00:00" /\
  normalizeTime "9:05" = Ret "09:05" /\
  normalizeTime "25:00" = Throw (invalidTimeMessage "25:00") /\
  forall time m, exec ampm_re time = Some m ->
    exists h period,
      parseInt (group m 1) = Int h /\
      toUpperCase (splice (group m 3)) = period /\ (period = "AM" \/ period = "PM") /\
      normalizeTime time =
        Ret (padStart 2 "0" (toString (Int (hour24 period h))) ++ ":"
             ++ match group m 2 with Some mm => mm | None => "00" end).
Proof.
  repeat (split; [vm_compute; reflexivity|]).
  intros time m H. rewrite (normalizeTime_ampm _ _ H).
  apply exec_sound in H as (pre & w & rest & _ & Hsem).
  apply convert12_rule in Hsem as (h & period & Hp & _ & Hper & Hcase & Hmin & ->).
  exists h, period. rewrite Hmin. auto.
Qed.

(** The rule of C5 at "7:30pm". *)
Lemma normalizeTime_examples_and_12h_rule_witness :
  exists h period,
    parseInt (Some "7") = Int h /\ period = "PM" /\
    normalizeTime "7:30pm" =
      Ret (padStart 2 "0" (toString (Int (hour24 period h))) ++ ":30").
Proof.
  destruct normalizeTime_examples_and_12h_rule as (_ & _ & _ & _ & rule).
  destruct (rule "7:30pm" [(3, "pm"); (2, "30"); (1, "7")] eq_refl)
    as (h & period & Hp & Hper & _ & Hn).
  exists h, period. repeat split; [exact Hp | now rewrite <- Hper | exact Hn].
Defined.

(** C9. The AM/PM branch checks no range and is not anchored.  Whenever the
    input holds a match of the AM/PM pattern anywhere, [normalizeTime] returns;
    and when the matched hour is above 12 with a PM suffix, the hour field of
    the result is that hour plus 12, which is 24 or more. *)
Theorem normalizeTime_12h_unchecked_unanchored (time : string) (m0 : captures) :
  matchesSomewhere ampm_re time m0 ->
  exists m h out,
    exec ampm_re time = Some m /\ parseInt (group m 1) = Int h /\
    normalizeTime time = Ret out /\
    (12 < h -> toUpperCase (splice (group m 3)) = "PM" ->
     out = toString (Int (h + 12)) ++ ":" ++ orElse (group m 2) "00" /\ 24 <= h + 12).
Proof.
  intros H0. destruct (exec ampm_re time) as [m|] eqn:E;
    [|now apply exec_complete in H0].
  pose proof (normalizeTime_ampm _ _ E) as Hn.
  apply exec_sound in E as (pre & w & rest & _ & Hsem).
  apply convert12_rule in Hsem as (h & period & Hp & Hlt & Hper & _ & _ & Hc).
  exists m, h, (convert12 m).
  split; [reflexivity|]. split; [exact Hp|]. split; [exact Hn|].
  intros Hgt Hpm. split; [|lia].
  rewrite Hpm in Hper. subst period. rewrite Hc. unfold hour24.
  cbn [String.eqb Ascii.eqb Bool.eqb andb].
  replace (h =? 12) with false by (symmetry; apply Nat.eqb_neq; lia).
  cbn [negb]. rewrite pad2_two_digits by lia. reflexivity.
Qed.

(** C9 at "13:30 PM", which comes out as "25:30", inside a longer sentence. *)
Lemma normalizeTime_12h_unchecked_unanchored_witness :
  exists m h out,
    exec ampm_re "see you at 13:30 PM then" = Some m /\ parseInt (group m 1) = Int h /\
    normalizeTime "see you at 13:30 PM then" = Ret out /\
    (12 < h -> toUpperCase (splice (group m 3)) = "PM" ->
     out = toString (Int (h + 12)) ++ ":" ++ orElse (group m 2) "00" /\ 24 <= h + 12).
Proof.
  apply (normalizeTime_12h_unchecked_unanchored
           "see you at 13:30 PM then" [(3, "PM"); (2, "30"); (1, "13")]).
  apply exec_sound. vm_compute. reflexivity.
Defined.

(** C10. The minutes are never validated: with one or two hour digits of
    value below 24, any two digits are accepted as minutes and come back as
    they were; a two-digit hour comes back unchanged as well, so the whole
    input does. *)
Theorem normalizeTime_minutes_unvalidated (hh mm : string) (h : nat) :
  digitString 1 hh \/ digitString 2 hh -> digitString 2 mm ->
  parseInt (Some hh) = Int h -> h < 24 ->
  normalizeTime (hh ++ ":" ++ mm) = Ret (padStart 2 "0" hh ++ ":" ++ mm) /\
  (digitString 2 hh -> normalizeTime (hh ++ ":" ++ mm) = Ret (hh ++ ":" ++ mm)).
Proof.
  intros Hh Hmm Hp Hlt.
  pose proof (normalizeTime_hhmm hh mm h Hh Hmm Hp Hlt) as Hn.
  split; [exact Hn|]. intros [Hl _]. rewrite Hn. unfold padStart. now rewrite Hl.
Qed.

(** C10 at "10:99". *)
Lemma normalizeTime_minutes_unvalidated_witness : normalizeTime "10:99" = Ret "10:99".
Proof.
  refine (proj1 (normalizeTime_minutes_unvalidated "10" "99" 10 _ _ _ _)).
  - right. split; reflexivity.
  - split; reflexivity.
  - reflexivity.
  - lia.
Defined.

(** On strings, the helpers used by the calendar functions are [normalizeTime]
    and [formatTime]. *)
Lemma normalizeTime_any_string (s : string) : normalizeTime_any (VStr s) = normalizeTime s.
Proof. reflexivity. Qed.

Lemma formatTime_any_string (s : string) : formatTime_any (VStr s) = Ret (VStr (formatTime s)).
Proof.
  unfold formatTime_any, formatTime. cbn [str].
  destruct (test hh_mm_re s); [reflexivity|].
  destruct (test h_mm_re s); reflexivity.
Qed.

Example normalizeTime_13_30_PM : normalizeTime "13:30 PM" = Ret "25:30".
Proof. reflexivity. Qed.

(** C2, on [formatTime] of index.js.  An input that matches none of the
    accepted patterns comes back unchanged, where [normalizeTime] throws: so
    for "noon", and for "25:00", whose hour [formatTime] does not check. *)
Theorem formatTime_returns_unmatched_input :
  formatTime "noon" = "noon" /\
  normalizeTime "noon" = Throw (invalidTimeMessage "noon") /\
  formatTime "25:00" = "25:00" /\
  normalizeTime "25:00" = Throw (invalidTimeMessage "25:00").
Proof. repeat split; vm_compute; reflexivity. Qed.

(** [normalizeTime] itself does what C2 asks: an input on which the 24-hour
    pattern does not apply (no match, or an hour of 24 or more) and which holds
    no AM/PM match is rejected, and the message quotes the input. *)
Theorem normalizeTime_rejects_unmatched (time : string) :
  (forall m h, matchesSomewhere hhmm_re time m -> parseInt (group m 1) = Int h -> 24 <= h) ->
  (forall m, ~ matchesSomewhere ampm_re time m) ->
  normalizeTime time = Throw (invalidTimeMessage time) /\
  includes time (invalidTimeMessage time) = true.
Proof.
  intros H24 H12. split; [|apply includes_infix].
  apply exec_none in H12. unfold normalizeTime. rewrite H12.
  destruct (exec hhmm_re time) as [m|] eqn:E; [|reflexivity].
  apply exec_sound in E. pose proof E as (pre & w & rest & _ & Hsem).
  apply hhmm_shape in Hsem as (hh & mm & -> & _ & _ & _ & Hh & _).
  destruct (hour_digits_value _ Hh) as (h & Hp & _ & _).
  specialize (H24 _ h E Hp). cbn [group Nat.eqb]. rewrite Hp. cbn [geb ltb Nat.leb andb].
  now replace (h <? 24) with false by (symmetry; apply Nat.ltb_ge; exact H24).
Qed.

Lemma normalizeTime_rejects_unmatched_witness :
  normalizeTime "25:00" = Throw (invalidTimeMessage "25:00") /\
  includes "25:00" (invalidTimeMessage "25:00") = true.
Proof.
  apply normalizeTime_rejects_unmatched.
  - intros m h (pre & w & rest & E & Hsem) Hp.
    apply hhmm_shape in Hsem as (hh & mm & -> & Hpos & -> & -> & Hh & Hmm).
    apply length_0_nil in Hpos as ->. cbn [append] in E. rewrite append_nil_r in E.
    cbn [group Nat.eqb] in Hp.
    destruct Hh as [Hh|Hh].
    + apply digitString_1 in Hh as (a & -> & _). discriminate E.
    + apply digitString_2 in Hh as (a & b & -> & _ & _). cbn in E.
      injection E as <- <- _. cbv in Hp. injection Hp as <-. lia.
  - apply exec_none. vm_compute. reflexivity.
Defined.

(** C6, on [normalizeTime].  "13:30 PM" is accepted and gives "25:30", which
    [normalizeTime] then rejects: a second application does not return the
    first result. *)
Theorem normalizeTime_not_idempotent :
  normalizeTime "13:30 PM" = Ret "25:30" /\
  normalizeTime "25:30" = Throw (invalidTimeMessage "25:30") /\
  normalizeTime "99 pm" = Ret "111:00" /\
  normalizeTime "111:00" = Throw (invalidTimeMessage "111:00").
Proof. repeat split; vm_compute; reflexivity. Qed.

(** Idempotence does hold on the results whose hour is below 24. *)

Lemma digitsValue_stop (s t : string) : forall acc,
  allChars isDigit s = true -> digitsValue (s ++ String ":" t) acc = digitsValue s acc.
Proof.
  induction s as [|a s IH]; intros acc H; simpl in *; [reflexivity|].
  apply andb_prop in H as [Ha Hs]. rewrite Ha. now apply IH.
Qed.

Lemma pad2_parse (n : nat) :
  n < 200 ->
  allChars isDigit (padStart 2 "0" (toString (Int n))) = true /\
  parseInt (Some (padStart 2 "0" (toString (Int n)))) = Int n /\
  (n < 100 -> String.length (padStart 2 "0" (toString (Int n))) = 2).
Proof.
  intros Hn.
  assert (Hall : forallb (fun n =>
             let s := padStart 2 "0" (toString (Int n)) in
             allChars isDigit s && JS.eqb (parseInt (Some s)) n
             && ((100 <=? n) || (String.length s =? 2))) (seq 0 200) = true)
    by (vm_compute; reflexivity).
  rewrite forallb_forall in Hall.
  assert (Hin : In n (seq 0 200)) by (apply in_seq; lia).
  apply Hall in Hin. cbv beta zeta in Hin.
  apply andb_prop in Hin as [Hin H3]. apply andb_prop in Hin as [H1 H2].
  split; [exact H1|]. split.
  - destruct (parseInt _) as [|k]; [discriminate H2|].
    apply Nat.eqb_eq in H2. now subst.
  - intros Hlt. apply orb_prop in H3 as [H3|H3].
    + apply Nat.leb_le in H3. lia.
    + now apply Nat.eqb_eq.
Qed.

Lemma hour24_bound (period : string) (h : nat) : h < 100 -> hour24 period h < 200.
Proof.
  intros H. unfold hour24.
  destruct (_ && _); [lia|]. destruct (_ && _); lia.
Qed.

(** Every result of [normalizeTime] is a padded hour, a colon and two digits. *)
Lemma normalizeTime_result_shape (x y : string) :
  normalizeTime x = Ret y ->
  exists H mm, H < 200 /\ digitString 2 mm /\
               y = padStart 2 "0" (toString (Int H)) ++ ":" ++ mm.
Proof.
  intros Hn.
  assert (Hampm : forall m, exec ampm_re x = Some m -> Ret (convert12 m) = Ret y ->
                            exists H mm, H < 200 /\ digitString 2 mm /\
                              y = padStart 2 "0" (toString (Int H)) ++ ":" ++ mm).
  { intros m E [= <-]. apply exec_sound in E as (pre & w & rest & _ & Hsem).
    pose proof (ampm_shape _ _ _ _ Hsem) as (_ & _ & _ & _ & _ & H2 & _ & _).
    apply convert12_rule in Hsem as (h & period & _ & Hlt & _ & _ & _ & ->).
    exists (hour24 period h), (orElse (group m 2) "00").
    split; [now apply hour24_bound|]. split; [|reflexivity].
    destruct H2 as [->|(mm & -> & Hmm)]; [split; reflexivity|].
    pose proof Hmm as (a & b & -> & _)%digitString_2. exact Hmm. }
  unfold normalizeTime in Hn.
  destruct (exec hhmm_re x) as [m|] eqn:E.
  - pose proof E as (pre & w & rest & _ & Hsem)%exec_sound.
    apply hhmm_shape in Hsem as (hh & mm & -> & _ & _ & _ & Hh & Hmm).
    destruct (hour_digits_value _ Hh) as (h & Hp & Hlt & _).
    cbn [group Nat.eqb splice] in Hn. rewrite Hp in Hn.
    destruct (geb (Int h) 0 && ltb (Int h) 24).
    + injection Hn as <-. exists h, mm. repeat split; try apply Hmm. lia.
    + destruct (exec ampm_re x) as [m'|] eqn:E'; [|discriminate Hn]. eauto.
  - destruct (exec ampm_re x) as [m'|] eqn:E'; [|discriminate Hn]. eauto.
Qed.

Theorem normalizeTime_idempotent_below_24 (x y : string) :
  normalizeTime x = Ret y -> ltb (parseInt (Some y)) 24 = true ->
  normalizeTime y = Ret y.
Proof.
  intros (H & mm & Hlt & Hmm & ->)%normalizeTime_result_shape Hy.
  destruct (pad2_parse H Hlt) as (Hd & Hp & Hlen).
  cbn [parseInt append] in Hy. rewrite digitsValue_stop in Hy by exact Hd.
  change (digitsValue ?s NaN) with (parseInt (Some s)) in Hy. rewrite Hp in Hy.
  cbn [ltb] in Hy. apply Nat.ltb_lt in Hy.
  assert (H2 : digitString 2 (padStart 2 "0" (toString (Int H))))
    by (split; [apply Hlen; lia | exact Hd]).
  rewrite (normalizeTime_hhmm _ mm H (or_intror H2) Hmm Hp Hy).
  unfold padStart at 1. destruct H2 as [-> _]. reflexivity.
Qed.

Lemma normalizeTime_idempotent_below_24_witness : normalizeTime "19:30" = Ret "19:30".
Proof.
  apply (normalizeTime_idempotent_below_24 "7:30 PM" "19:30"); reflexivity.
Defined.

(** ** Effects *)

Section EffectFacts.
Context {E : Env}.

Lemma bind_ret_inv {A B : Type} (m : M A) (k : A -> M B) (s s' : State) (b : B) :
  bind m k s = (Ret b, s') ->
  exists a s1, m s = (Ret a, s1) /\ k a s1 = (Ret b, s').
Proof.
  unfold bind. destruct (m s) as [[a|msg] s1]; [|discriminate]. intros H. now exists a, s1.
Qed.

(** A [try] whose handler returns never throws. *)
Lemma tryCatch_returns {A : Type} (body : M A) (f : string -> A) (s : State) :
  exists a s', tryCatch body (fun error => ret (f error)) s = (Ret a, s').
Proof.
  unfold tryCatch, ret. destruct (body s) as [[a|msg] s']; eauto.
Qed.

Lemma tryCatch_ret_inv {A : Type} (body : M A) (f : string -> A) (s s' : State) (a : A) :
  tryCatch body (fun error => ret (f error)) s = (Ret a, s') ->
  body s = (Ret a, s') \/ exists msg, body s = (Throw msg, s') /\ a = f msg.
Proof.
  unfold tryCatch, ret. destruct (body s) as [[a'|msg] s1]; intros [= <- <-]; eauto.
Qed.

End EffectFacts.

(** ** Availability *)

Lemma filter_none_iff {A : Type} (f : A -> bool) (l : list A) :
  (List.length (filter f l) =? 0) = false <-> exists x, In x l /\ f x = true.
Proof.
  induction l as [|a l IH]; simpl.
  - split; [discriminate | intros (x & [] & _)].
  - destruct (f a) eqn:Fa; simpl.
    + split; [eauto | reflexivity].
    + rewrite IH. split; intros (x & Hin & Hx); [eauto|].
      destruct Hin as [<-|Hin]; [congruence | eauto].
Qed.

Lemma date_lt_irrefl (a : option Z) : date_lt a a = false.
Proof. destruct a as [x|]; simpl; [apply Z.ltb_irrefl | reflexivity]. Qed.

Section AvailabilityFacts.
Context {E : Env}.

(** The service-account [checkAvailability] follows the overlap rule of C1:
    once the calendar has returned its list, the answer is "unavailable"
    exactly when some returned event overlaps the window, whatever else the
    list holds; events that only touch a boundary of the window leave it
    available. *)
Theorem checkAvailability_overlap_rule
    (date startTime endTime : value) (s : State)
    (formattedStart formattedEnd : string) (tmin tmax : Z)
    (response : ListResponse) (w' : World) :
  normalizeTime_any startTime = Ret formattedStart ->
  normalizeTime_any endTime = Ret formattedEnd ->
  Date_parse (str date ++ "T" ++ formattedStart ++ ":00-05:00") = Some tmin ->
  Date_parse (str date ++ "T" ++ formattedEnd ++ ":00-05:00") = Some tmax ->
  events_list {| l_calendarId := orElse GOOGLE_CALENDAR_ID "primary";
                 timeMin := toISOString tmin; timeMax := toISOString tmax;
                 singleEvents := true |} (world s) = (Ret response, w') ->
  let W_start := Date_parse (toISOString tmin) in
  let W_end := Date_parse (toISOString tmax) in
  let events := match items response with Some l => l | None => [] end in
  exists r s',
    checkAvailability date startTime endTime s = (Ret r, s') /\
    (available r = false <-> exists e, In e events /\ overlaps e W_start W_end) /\
    ((forall e, In e events ->
        eventDate (ev_end e) = W_start \/ eventDate (ev_start e) = W_end) ->
     available r = true).
Proof.
  intros Hs He Hmin Hmax Hlist W_start W_end events.
  unfold checkAvailability, tryCatch, bind, lift, remote, isoString.
  rewrite Hs, He, Hmin, Hmax, Hlist. cbn [ret items].
  eexists _, _. split; [reflexivity|]. cbn [available].
  fold events W_start W_end. unfold date_gt.
  assert (Hiff : (List.length
                    (filter (fun event =>
                               date_lt (eventDate (ev_start event)) W_end
                               && date_lt W_start (eventDate (ev_end event))) events) =? 0)
                 = false <-> exists e, In e events /\ overlaps e W_start W_end).
  { rewrite filter_none_iff. unfold overlaps.
    split; intros (e & Hin & H); exists e; (split; [exact Hin|]).
    - now apply andb_prop in H.
    - destruct H as [-> ->]. reflexivity. }
  split; [exact Hiff|].
  intros Htouch. apply not_false_is_true. intros Hf.
  apply Hiff in Hf as (e & Hin & H1 & H2).
  destruct (Htouch e Hin) as [Heq|Heq].
  - rewrite Heq, date_lt_irrefl in H2. discriminate H2.
  - rewrite Heq, date_lt_irrefl in H1. discriminate H1.
Qed.

End AvailabilityFacts.

(** The rule at work: a 13:00-14:00 event does not block 14:00-15:00. *)
Lemma checkAvailability_overlap_rule_witness :
  exists r s',
    checkAvailability (E := demoEnv) (VStr "2025-01-10") (VStr "2 PM") (VStr "3 PM")
                      (demoState [lunch]) = (Ret r, s') /\
    available r = true.
Proof.
  destruct (checkAvailability_overlap_rule (E := demoEnv)
              (VStr "2025-01-10") (VStr "2 PM") (VStr "3 PM") (demoState [lunch])
              "14:00" "15:00" 840%Z 900%Z {| items := Some [lunch] |} [lunch]
              eq_refl eq_refl eq_refl eq_refl eq_refl) as (r & s' & Hrun & _ & Htouch).
  exists r, s'. split; [exact Hrun|]. apply Htouch.
  intros e [<-|[]]. left. reflexivity.
Defined.

(** C1, on [checkAvailability] of index.js.  With a 13:00-14:00 event in the
    list the calendar returns, the window 14:00-15:00 is reported as booked,
    although the event only touches the start of the window; the
    service-account [checkAvailability] reports the same window available. *)
Theorem checkAvailability_index_trusts_the_list :
  fst (checkAvailability_index (E := demoEnv)
         (VStr "2025-01-10") (VStr "14:00") (VStr "15:00") (demoState [lunch]))
  = Ret {| available := false;
           a_message := "Sorry, 2025-01-10 from 14:00 to 15:00 is already booked." |} /\
  ~ overlaps (E := demoEnv) lunch (Some 840%Z) (Some 900%Z) /\
  fst (checkAvailability (E := demoEnv)
         (VStr "2025-01-10") (VStr "14:00") (VStr "15:00") (demoState [lunch]))
  = Ret {| available := true;
           a_message := "Yes, 2025-01-10 from 14:00 to 15:00 is available."
                        ++ " [DEBUG: Found 1 total events, 0 overlapping]" |}.
Proof.
  split; [vm_compute; reflexivity|]. split; [|vm_compute; reflexivity].
  intros [_ H]. vm_compute in H. discriminate H.
Qed.

(** ** Booking *)

Section BookingFacts.
Context {E : Env}.

(** Invert a successful run of a sequence of steps. *)
Ltac bind_inv H :=
  repeat (let a := fresh "a" in
          let s1 := fresh "s" in
          let H1 := fresh "H" in
          apply bind_ret_inv in H as (a & s1 & H1 & H)).

(** The service-account [bookAppointment] does what C3 asks: it always
    returns; a success carries a message, the event id and the link; a failure
    carries a message that names the error. *)
Theorem bookAppointment_never_raises
    (summary date startTime endTime description email : value) (s : State) :
  exists r s',
    bookAppointment summary date startTime endTime description email s = (Ret r, s') /\
    ((success r = true /\
      exists m i l, message r = Some m /\ eventId r = Some i /\ link r = Some l) \/
     (success r = false /\
      exists err, message r = Some ("Unable to book the appointment at this time. Error: "
                                    ++ err))).
Proof.
  unfold bookAppointment.
  match goal with
  | |- context [tryCatch ?b (fun error => ret (@?f error))] =>
      destruct (tryCatch_returns b f s) as (r & s' & Hrun)
  end.
  exists r, s'. split; [exact Hrun|].
  apply tryCatch_ret_inv in Hrun as [Hok|(msg & _ & ->)].
  - left. bind_inv Hok. unfold ret in Hok. injection Hok as <- _.
    cbn [success message eventId link]. split; [reflexivity|].
    eexists _, _, _. repeat split; reflexivity.
  - right. cbn [success message]. split; [reflexivity|]. now exists msg.
Qed.

(** The conversational [bookAppointment] always returns as well, but its
    result never has a message. *)
Theorem bookAppointment_conv_never_raises
    (summary date startTime endTime description : value) (s : State) :
  exists r s',
    bookAppointment_conv summary date startTime endTime description s = (Ret r, s') /\
    message r = None /\
    (success r = false -> exists err, error r = Some err).
Proof.
  unfold bookAppointment_conv.
  match goal with
  | |- context [tryCatch ?b (fun error => ret (@?f error))] =>
      destruct (tryCatch_returns b f s) as (r & s' & Hrun)
  end.
  exists r, s'. split; [exact Hrun|].
  apply tryCatch_ret_inv in Hrun as [Hok|(msg & _ & ->)].
  - bind_inv Hok. unfold ret in Hok. injection Hok as <- _.
    cbn [success message error]. split; [reflexivity | discriminate].
  - cbn [success message error]. split; [reflexivity|]. intros _. now exists msg.
Qed.

End BookingFacts.

(** C3, on [bookAppointment] of the conversational servers.  When the insert
    is rejected the result is [{ success: false, error }], and on success it
    is [{ success: true, eventId, link }]: neither has a message. *)
Theorem bookAppointment_conv_has_no_message :
  fst (bookAppointment_conv (E := failingEnv)
         (VStr "Haircut") (VStr "2025-01-10") (VStr "14:00") (VStr "15:00") VUndefined
         (failingState []))
  = Ret {| success := false; message := None; eventId := None; link := None;
           error := Some "Forbidden" |} /\
  fst (bookAppointment_conv (E := demoEnv)
         (VStr "Haircut") (VStr "2025-01-10") (VStr "14:00") (VStr "15:00") VUndefined
         (demoState []))
  = Ret {| success := true; message := None; eventId := Some "evt1";
           link := Some "https://calendar.example/evt1"; error := None |} /\
  fst (bookAppointment (E := failingEnv)
         (VStr "Haircut") (VStr "2025-01-10") (VStr "14:00") (VStr "15:00")
         VUndefined VUndefined (failingState []))
  = Ret {| success := false;
           message := Some "Unable to book the appointment at this time. Error: Forbidden";
           eventId := None; link := None; error := None |}.
Proof. repeat split; vm_compute; reflexivity. Qed.

(** ** The tool webhook *)

Section WebhookFacts.
Context {E : Env}.




















End WebhookFacts.


Example webhook_mixed_batch :
  fst (webhook (E := demoEnv) (batch (VArr [goodCall; badCall])) (demoState [lunch]))
  = Ret (json (ResultsBody
      [ {| toolCallId := VStr "call_1";
           result := Some ("Yes, 2025-01-10 from 2 PM to 3 PM is available."
                           ++ " [DEBUG: Found 1 total events, 0 overlapping]") |};
        {| toolCallId := VStr "call_2";
           result := Some "Error: Unexpected token in JSON: {oops" |} ])).
Proof. vm_compute. reflexivity. Qed.


(** ** Canonical messages *)

Lemma find_system_after (pre post : list Message) (sys : Message) :
  isSystem sys = true -> forallb (fun m => negb (isSystem m)) pre = true ->
  find isSystem (pre ++ sys :: post) = Some sys.
Proof.
  intros Hsys. induction pre as [|m pre IH]; cbn [forallb app find].
  - now rewrite Hsys.
  - intros [Hm Hpre]%andb_prop. apply negb_true_iff in Hm. rewrite Hm. now apply IH.
Qed.

Lemma filter_all {A : Type} (f : A -> bool) (l : list A) :
  forallb f l = true -> filter f l = l.
Proof.
  induction l as [|a l IH]; cbn [forallb filter]; [reflexivity|].
  intros [Ha Hl]%andb_prop. now rewrite Ha, IH.
Qed.

Lemma claudeMessages_without_system (l : list Message) :
  forallb (fun m => negb (isSystem m)) l = true -> claudeMessages l = map toClaude l.
Proof. intros H. unfold claudeMessages. now rewrite filter_all. Qed.

Lemma claudeMessages_drop_system (pre post : list Message) (sys : Message) :
  isSystem sys = true ->
  claudeMessages (pre ++ sys :: post) = claudeMessages (pre ++ post).
Proof.
  intros Hsys. unfold claudeMessages. rewrite !filter_app. cbn [filter].
  now rewrite Hsys.
Qed.

(** C7 as the code has it.  With one system turn in the list, wherever it
    stands, the turns are the other messages in their order, each with its
    content and with every role but "assistant" turned into "user"; the prompt
    is the content of the system turn, unless that content is empty, in which
    case it is the default persona. *)
Theorem canonical_form_with_system_turn (pre post : list Message) (sys : Message) :
  isSystem sys = true ->
  forallb (fun m => negb (isSystem m)) (pre ++ post) = true ->
  systemMessage (pre ++ sys :: post)
  = (if String.eqb (content sys) "" then defaultPersona else content sys) /\
  claudeMessages (pre ++ sys :: post) = map toClaude (pre ++ post) /\
  (forall m, role (toClaude m) = (if String.eqb (role m) "assistant" then "assistant" else "user")
             /\ content (toClaude m) = content m) /\
  (forall pre' post', (pre' ++ post' = pre ++ post)%list ->
     systemMessage (pre' ++ sys :: post') = systemMessage (pre ++ sys :: post) /\
     claudeMessages (pre' ++ sys :: post') = claudeMessages (pre ++ sys :: post)).
Proof.
  intros Hsys Hall.
  assert (Hprompt : forall p q, forallb (fun m => negb (isSystem m)) (p ++ q) = true ->
            systemMessage (p ++ sys :: q)
            = (if String.eqb (content sys) "" then defaultPersona else content sys)).
  { intros p q H. rewrite forallb_app in H. apply andb_prop in H as [Hp _].
    unfold systemMessage. rewrite (find_system_after p q sys Hsys Hp). cbn [option_map].
    now destruct (content sys). }
  split; [now apply Hprompt|]. split; [|split].
  - rewrite (claudeMessages_drop_system pre post sys Hsys).
    now apply claudeMessages_without_system.
  - intros m. split; reflexivity.
  - intros pre' post' Heq. split.
    + rewrite !Hprompt; [reflexivity | exact Hall | now rewrite Heq].
    + rewrite !(claudeMessages_drop_system _ _ sys Hsys). now rewrite Heq.
Qed.

Lemma canonical_form_with_system_turn_witness :
  systemMessage [ {| role := "user"; content := "Hi" |};
                  {| role := "system"; content := "Be brief." |};
                  {| role := "tool"; content := "ok" |} ] = "Be brief." /\
  claudeMessages [ {| role := "user"; content := "Hi" |};
                   {| role := "system"; content := "Be brief." |};
                   {| role := "tool"; content := "ok" |} ]
  = [ {| role := "user"; content := "Hi" |}; {| role := "user"; content := "ok" |} ].
Proof.
  destruct (canonical_form_with_system_turn
              [ {| role := "user"; content := "Hi" |} ]
              [ {| role := "tool"; content := "ok" |} ]
              {| role := "system"; content := "Be brief." |} eq_refl eq_refl)
    as (Hp & Ht & _).
  split; [exact Hp | exact Ht].
Defined.

(** C7 as stated fails on a system turn whose content is the empty string:
    the prompt is then the default persona, not that content. *)
Lemma system_turn_with_empty_content :
  systemMessage [ {| role := "system"; content := "" |};
                  {| role := "user"; content := "Hi" |} ]
  = defaultPersona /\
  defaultPersona <> content {| role := "system"; content := "" |}.
Proof. split; [reflexivity | discriminate]. Qed.

(** ** Requests without usable turns *)

Section ConversationFacts.
Context {E : Env}.

Lemma claudeMessages_only_system (l : list Message) :
  forallb isSystem l = true -> claudeMessages l = [].
Proof.
  unfold claudeMessages. induction l as [|m l IH]; cbn [forallb filter map]; [reflexivity|].
  intros [Hm Hl]%andb_prop. rewrite Hm. cbn [negb]. now apply IH.
Qed.

(** On an array without [null] the elements are read without an error, and
    the handler goes on with the system prompt and the canonical turns. *)
Lemma findSystem_elements (l : list Message) :
  findSystem (elements l) = Ret (find isSystem l).
Proof.
  induction l as [|m l IH]; cbn [elements map findSystem find]; [reflexivity|].
  destruct (isSystem m); [reflexivity | exact IH].
Qed.

Lemma nonSystem_elements (l : list Message) :
  nonSystem (elements l) = Ret (filter (fun m => negb (isSystem m)) l).
Proof.
  induction l as [|m l IH]; cbn [elements map nonSystem filter]; [reflexivity|].
  fold (elements l). now rewrite IH.
Qed.

Lemma handleConversation_elements (l : list Message) (s : State) :
  l <> [] ->
  handleConversation (AnArray (elements l)) s
  = answerTurns (systemMessage l) (claudeMessages l) s.
Proof.
  intros Hne. destruct l as [|m l]; [contradiction|].
  change (elements (m :: l)) with (EMsg m :: elements l). cbn [handleConversation].
  change (EMsg m :: elements l) with (elements (m :: l)).
  unfold bind, lift. now rewrite findSystem_elements, nonSystem_elements.
Qed.

(** C8. A conversational request without usable turns is answered with
    status 400 and leaves the state as it was: no remote call is made.  A
    webhook call without tool calls is answered with status 200 and
    [{ received: true }], again without a remote call.  The two answers
    differ. *)
Theorem empty_conversation_rejected_ping_acknowledged
    (messages : MessagesField) (body : value) (s : State) :
  noUsableTurns messages -> isPing body ->
  (exists msg, handleConversation messages s = (Ret (statusJson 400 (ErrorBody msg)), s)) /\
  webhook body s = (Ret (json ReceivedBody), s) /\
  (forall msg, statusJson 400 (ErrorBody msg) <> json ReceivedBody).
Proof.
  intros Hno Hping. split; [|split].
  - destruct messages as [| |l]; [unfold handleConversation, ret; eauto ..|].
    destruct Hno as (turns & -> & Hsys).
    destruct turns as [|m turns]; [unfold handleConversation, ret; cbn; eauto|].
    rewrite handleConversation_elements by discriminate. unfold answerTurns.
    rewrite (claudeMessages_only_system _ Hsys). cbn [List.length Nat.eqb]. unfold ret. eauto.
  - destruct Hping as (fields & -> & Hcalls). unfold webhook, bind, lift. cbn [prop].
    destruct Hcalls as [-> | ->]; reflexivity.
  - intros msg. discriminate.
Qed.

(** Calls are only ever added. *)

Lemma grows_ret {A : Type} (a : A) : grows (ret a).
Proof. intros s. exists []. cbn. now rewrite app_nil_r. Qed.

Lemma grows_lift {A : Type} (x : Exc A) : grows (lift x).
Proof. intros s. exists []. cbn. now rewrite app_nil_r. Qed.

Lemma grows_remote {A : Type} (c : Call) (f : World -> Exc A * World) : grows (remote c f).
Proof. intros s. exists [c]. unfold remote. now destruct (f (world s)). Qed.

Lemma grows_bind {A B : Type} (m : M A) (k : A -> M B) :
  grows m -> (forall a, grows (k a)) -> grows (bind m k).
Proof.
  intros Hm Hk s. unfold bind. destruct (Hm s) as (r1 & H1).
  destruct (m s) as [[a|msg] s1]; cbn [snd] in *.
  - destruct (Hk a s1) as (r2 & H2). exists (r1 ++ r2)%list.
    now rewrite H2, H1, app_assoc.
  - now exists r1.
Qed.

Lemma grows_tryCatch {A : Type} (body : M A) (handler : string -> M A) :
  grows body -> (forall e, grows (handler e)) -> grows (tryCatch body handler).
Proof.
  intros Hb Hh s. unfold tryCatch. destruct (Hb s) as (r1 & H1).
  destruct (body s) as [[a|msg] s1]; cbn [snd] in *.
  - now exists r1.
  - destruct (Hh msg s1) as (r2 & H2). exists (r1 ++ r2)%list.
    now rewrite H2, H1, app_assoc.
Qed.

Create HintDb grows.
#[local] Hint Resolve grows_ret grows_lift grows_remote : grows.

Ltac grows :=
  repeat first
    [ progress auto with grows
    | apply grows_bind; [|intros ?]
    | apply grows_tryCatch; [|intros ?]
    | match goal with
      | |- grows (if ?b then _ else _) => destruct b
      | |- grows (match ?x with _ => _ end) => destruct x
      end ].

Lemma grows_useTool (name : string) (input : value) : grows (useTool name input).
Proof.
  unfold useTool, checkAvailability_conv, bookAppointment_conv. grows.
Qed.

(** A guarded sequence that starts with a remote call returns, and that call
    is the first one it adds. *)
Lemma first_call {A B : Type} (c : Call) (f : World -> Exc A * World)
      (k : A -> M B) (h : string -> B) (s : State) :
  (forall a, grows (k a)) ->
  exists r s' rest,
    tryCatch (bind (remote c f) k) (fun error => ret (h error)) s = (Ret r, s') /\
    calls s' = (calls s ++ c :: rest)%list.
Proof.
  intros Hk. unfold tryCatch, bind, remote.
  destruct (f (world s)) as [[a|msg] w].
  - destruct (Hk a {| world := w; calls := calls s ++ [c] |}) as (rest & Hrest).
    destruct (k a _) as [[r|msg] s']; cbn [snd calls] in Hrest;
      eexists _, _, rest; (split; [reflexivity|]); cbn [ret snd];
      rewrite Hrest, <- app_assoc; reflexivity.
  - eexists _, _, []. split; reflexivity.
Qed.

(** A request with a usable turn is answered, and it does reach the model:
    the first call added is the completion request built from the canonical
    form. *)
Lemma handleConversation_calls_model (l : list Message) (s : State) :
  claudeMessages l <> [] ->
  exists r s' rest,
    handleConversation (AnArray (elements l)) s = (Ret r, s') /\
    calls s' = (calls s
                ++ ModelCreate {| max_tokens := 200; system := systemMessage l;
                                  messages := map asTurn (claudeMessages l) |}
                   :: rest)%list.
Proof.
  intros Hne. destruct l as [|m l]; [now destruct Hne|].
  rewrite handleConversation_elements by discriminate. unfold answerTurns.
  destruct (claudeMessages (m :: l)) as [|c cs] eqn:Ec; [now destruct Hne|].
  cbn [List.length Nat.eqb]. rewrite <- Ec. clear Hne Ec c cs.
  set (req := {| max_tokens := 200; system := systemMessage (m :: l);
                 messages := map asTurn (claudeMessages (m :: l)) |}).
  apply first_call. intros response. pose proof grows_useTool. grows.
Qed.

End ConversationFacts.

Lemma empty_conversation_rejected_ping_acknowledged_witness :
  (exists msg,
      handleConversation (E := demoEnv)
        (AnArray [ EMsg {| role := "system"; content := "Be brief." |} ]) (demoState [])
      = (Ret (statusJson 400 (ErrorBody msg)), demoState [])) /\
  webhook (E := demoEnv) (batch (VArr [])) (demoState [])
  = (Ret (json ReceivedBody), demoState []).
Proof.
  destruct (empty_conversation_rejected_ping_acknowledged (E := demoEnv)
              (AnArray [ EMsg {| role := "system"; content := "Be brief." |} ])
              (batch (VArr [])) (demoState [])) as (H400 & Hping & _).
  - exists [ {| role := "system"; content := "Be brief." |} ]. split; reflexivity.
  - eexists. split; [reflexivity|]. right. reflexivity.
  - split; [exact H400 | exact Hping].
Defined.

(** * Further properties of the code *)

(** ** [formatTime] against [normalizeTime] *)

Lemma hh_mm_shape (pos : nat) (w rest : string) (m : captures) :
  sem hh_mm_re pos w rest [] m ->
  exists hh mm, w = hh ++ ":" ++ mm /\ pos = 0 /\ rest = "" /\
                digitString 2 hh /\ digitString 2 mm.
Proof.
  unfold hh_mm_re, digit. intros H. inv_sem.
  eexists (String _ (String _ "")), (String _ (String _ "")).
  split; [simpl; use_classes; reflexivity|]. split; [reflexivity|]. split; [reflexivity|].
  split; digit_string.
Qed.

Lemma h_mm_shape (pos : nat) (w rest : string) (m : captures) :
  sem h_mm_re pos w rest [] m ->
  exists hh mm, w = hh ++ ":" ++ mm /\ pos = 0 /\ rest = "" /\
                digitString 1 hh /\ digitString 2 mm.
Proof.
  unfold h_mm_re, digit. intros H. inv_sem.
  eexists (String _ ""), (String _ (String _ "")).
  split; [simpl; use_classes; reflexivity|]. split; [reflexivity|]. split; [reflexivity|].
  split; digit_string.
Qed.

Lemma test_shape (r : regex) (time : string) (n : nat) :
  (forall pos w rest m, sem r pos w rest [] m ->
     exists hh mm, w = hh ++ ":" ++ mm /\ pos = 0 /\ rest = "" /\
                   digitString n hh /\ digitString 2 mm) ->
  test r time = true ->
  exists hh mm, time = hh ++ ":" ++ mm /\ digitString n hh /\ digitString 2 mm.
Proof.
  intros Hshape Ht. unfold test in Ht.
  destruct (exec r time) as [m|] eqn:E; [|discriminate Ht].
  apply exec_sound in E as (pre & w & rest & -> & Hsem).
  apply Hshape in Hsem as (hh & mm & -> & Hpos & -> & Hh & Hmm).
  apply length_0_nil in Hpos as ->. cbn [append]. rewrite append_nil_r. eauto.
Qed.

Lemma test_hh_mm (hh mm : string) :
  digitString 2 hh -> digitString 2 mm -> test hh_mm_re (hh ++ ":" ++ mm) = true.
Proof.
  intros Hh Hmm. name_digits. unfold test, exec, hh_mm_re, digit. cbn. use_classes. cbn.
  use_classes. reflexivity.
Qed.

Lemma test_h_mm (hh mm : string) :
  digitString 1 hh -> digitString 2 mm ->
  test hh_mm_re (hh ++ ":" ++ mm) = false /\ test h_mm_re (hh ++ ":" ++ mm) = true.
Proof.
  intros Hh Hmm. name_digits. unfold test, exec, hh_mm_re, h_mm_re, digit. cbn.
  use_classes. cbn. use_classes. split; reflexivity.
Qed.

(** A string of digits and colons has no AM/PM match. *)
Lemma digits_colon_no_ampm (hh mm : string) :
  allChars isDigit hh = true -> allChars isDigit mm = true ->
  exec ampm_re (hh ++ ":" ++ mm) = None.
Proof.
  intros Hh Hmm. apply exec_none. intros m (pre & w & rest & E & Hsem).
  apply ampm_shape in Hsem as (_ & _ & _ & _ & _ & _ & _ & HM).
  assert (Hw : forall s, allChars isDigit s = true ->
                         allChars (fun a => isDigit a || lit ":" a) s = true).
  { intros s. apply allChars_weaken. now intros a ->. }
  assert (Hall : allChars (fun a => isDigit a || lit ":" a) (hh ++ ":" ++ mm) = true)
    by now rewrite !allChars_app, (Hw hh Hh), (Hw mm Hmm).
  apply (allChars_anyChar _ (ci "M") _ digit_or_colon_not_M) in Hall.
  rewrite E, !anyChar_app, HM, orb_true_r in Hall. discriminate Hall.
Qed.

(** With an AM/PM match, neither of the two 24-hour tests of [formatTime]
    applies. *)
Lemma ampm_excludes_tests (time : string) (m : captures) :
  exec ampm_re time = Some m -> test hh_mm_re time = false /\ test h_mm_re time = false.
Proof.
  intros E. split.
  - destruct (test hh_mm_re time) eqn:T; [|reflexivity].
    apply (test_shape _ _ 2 hh_mm_shape) in T as (hh & mm & -> & [_ Hh] & [_ Hmm]).
    rewrite (digits_colon_no_ampm _ _ Hh Hmm) in E. discriminate E.
  - destruct (test h_mm_re time) eqn:T; [|reflexivity].
    apply (test_shape _ _ 1 h_mm_shape) in T as (hh & mm & -> & [_ Hh] & [_ Hmm]).
    rewrite (digits_colon_no_ampm _ _ Hh Hmm) in E. discriminate E.
Qed.

(** Wherever [normalizeTime] returns, [formatTime] of index.js gives the same
    string; the two helpers differ only on the inputs [normalizeTime] rejects. *)
Theorem formatTime_agrees_with_normalizeTime (time result : string) :
  normalizeTime time = Ret result -> formatTime time = result.
Proof.
  intros Hn.
  assert (Hampm : forall m, exec ampm_re time = Some m -> result = convert12 m ->
                            formatTime time = result).
  { intros m E ->. unfold formatTime.
    destruct (ampm_excludes_tests _ _ E) as [-> ->]. now rewrite E. }
  unfold normalizeTime in Hn.
  destruct (exec hhmm_re time) as [m|] eqn:E.
  - pose proof E as (pre & w & rest & Etime & Hsem)%exec_sound.
    apply hhmm_shape in Hsem as (hh & mm & -> & Hpos & -> & -> & Hh & Hmm).
    apply length_0_nil in Hpos as ->. cbn [append] in Etime. rewrite append_nil_r in Etime.
    destruct (hour_digits_value _ Hh) as (h & Hp & _ & Hpad).
    cbn [group Nat.eqb splice] in Hn. rewrite Hp, Hpad in Hn.
    destruct (geb (Int h) 0 && ltb (Int h) 24).
    + injection Hn as <-. subst time. unfold formatTime. destruct Hh as [Hh|Hh].
      * destruct (test_h_mm _ _ Hh Hmm) as [H1 H2]. cbn [append] in H1, H2.
        rewrite H1, H2. apply digitString_1 in Hh as (a & -> & _).
        apply digitString_2 in Hmm as (c & d & -> & _). reflexivity.
      * pose proof (test_hh_mm _ _ Hh Hmm) as H1. cbn [append] in H1. rewrite H1.
        apply digitString_2 in Hh as (a & b & -> & _). reflexivity.
    + rewrite (hhmm_excludes_ampm _ _ E) in Hn. discriminate Hn.
  - destruct (exec ampm_re time) as [m|] eqn:E'; [|discriminate Hn].
    injection Hn as <-. now apply (Hampm m).
Qed.

Lemma formatTime_agrees_with_normalizeTime_witness : formatTime "9:05" = "09:05".
Proof. apply formatTime_agrees_with_normalizeTime. reflexivity. Defined.

Lemma pad2_length (n : nat) :
  n < 200 ->
  String.length (padStart 2 "0" (toString (Int n))) = if n <? 100 then 2 else 3.
Proof.
  intros Hn.
  assert (Hall : forallb (fun n =>
             String.length (padStart 2 "0" (toString (Int n)))
             =? (if n <? 100 then 2 else 3)) (seq 0 200) = true)
    by (vm_compute; reflexivity).
  rewrite forallb_forall in Hall. apply Nat.eqb_eq, Hall, in_seq. lia.
Qed.

(** What [convert12] builds is a padded hour, a colon and two digits. *)
Lemma convert12_shape (pos : nat) (w rest : string) (m : captures) :
  sem ampm_re pos w rest [] m ->
  exists H mm, H < 200 /\ digitString 2 mm /\
               convert12 m = padStart 2 "0" (toString (Int H)) ++ ":" ++ mm.
Proof.
  intros Hsem.
  pose proof (ampm_shape _ _ _ _ Hsem) as (_ & _ & _ & _ & _ & H2 & _ & _).
  apply convert12_rule in Hsem as (h & period & _ & Hlt & _ & _ & _ & ->).
  exists (hour24 period h), (orElse (group m 2) "00").
  split; [now apply hour24_bound|]. split; [|reflexivity].
  destruct H2 as [->|(mm & -> & Hmm)]; [split; reflexivity|].
  pose proof Hmm as (a & b & -> & _)%digitString_2. exact Hmm.
Qed.

(** [formatTime] leaves a padded hour, a colon and two digits as they are. *)
Lemma formatTime_canonical (H : nat) (mm : string) :
  H < 200 -> digitString 2 mm ->
  formatTime (padStart 2 "0" (toString (Int H)) ++ ":" ++ mm)
  = padStart 2 "0" (toString (Int H)) ++ ":" ++ mm.
Proof.
  intros HH Hmm. destruct (pad2_parse H HH) as (Hd & _ & _).
  pose proof (pad2_length H HH) as Hlen.
  set (hh := padStart 2 "0" (toString (Int H))) in *.
  unfold formatTime. destruct (H <? 100) eqn:Hlt.
  - assert (Hh : digitString 2 hh) by now split.
    pose proof (test_hh_mm _ _ Hh Hmm) as T. now rewrite T.
  - assert (Hlen' : String.length (hh ++ ":" ++ mm) = 6).
    { rewrite !length_append, Hlen. destruct Hmm as [-> _]. reflexivity. }
    destruct (test hh_mm_re (hh ++ ":" ++ mm)) eqn:T1.
    { apply (test_shape _ _ 2 hh_mm_shape) in T1 as (h2 & m2 & E & [L1 _] & [L2 _]).
      rewrite E, !length_append, L1, L2 in Hlen'. discriminate Hlen'. }
    destruct (test h_mm_re (hh ++ ":" ++ mm)) eqn:T2.
    { apply (test_shape _ _ 1 h_mm_shape) in T2 as (h2 & m2 & E & [L1 _] & [L2 _]).
      rewrite E, !length_append, L1, L2 in Hlen'. discriminate Hlen'. }
    destruct Hmm as [_ Hmm]. now rewrite (digits_colon_no_ampm _ _ Hd Hmm).
Qed.

(** [formatTime] of index.js is idempotent on every string, also on the ones
    it cannot read and on results with an hour of 24 or more. *)
Theorem formatTime_idempotent (time : string) :
  formatTime (formatTime time) = formatTime time.
Proof.
  destruct (test hh_mm_re time) eqn:T1.
  { assert (H : formatTime time = time) by (unfold formatTime; now rewrite T1).
    now rewrite !H. }
  destruct (test h_mm_re time) eqn:T2.
  { pose proof T2 as (hh & mm & -> & Hh & Hmm)%(test_shape _ _ 1 h_mm_shape).
    assert (H : formatTime (hh ++ ":" ++ mm) = ("0" ++ hh) ++ ":" ++ mm).
    { unfold formatTime. rewrite T1, T2. name_digits. reflexivity. }
    rewrite H. unfold formatTime.
    assert (Hh' : digitString 2 ("0" ++ hh)).
    { apply digitString_1 in Hh as (a & -> & Ha). split; [reflexivity|].
      cbn. now rewrite Ha. }
    pose proof (test_hh_mm _ _ Hh' Hmm) as T. now rewrite T. }
  destruct (exec ampm_re time) as [m|] eqn:E.
  - assert (H : formatTime time = convert12 m) by (unfold formatTime; now rewrite T1, T2, E).
    rewrite H. apply exec_sound in E as (pre & w & rest & _ & Hsem).
    apply convert12_shape in Hsem as (Hh & mm & Hlt & Hmm & ->).
    now apply formatTime_canonical.
  - assert (H : formatTime time = time) by (unfold formatTime; now rewrite T1, T2, E).
    now rewrite !H.
Qed.

(** Every result of [normalizeTime] is two or three digits, a colon and two
    digits. *)
Theorem normalizeTime_output_format (time result : string) :
  normalizeTime time = Ret result ->
  exists hh mm, result = hh ++ ":" ++ mm /\
                (digitString 2 hh \/ digitString 3 hh) /\ digitString 2 mm.
Proof.
  intros (H & mm & Hlt & Hmm & ->)%normalizeTime_result_shape.
  exists (padStart 2 "0" (toString (Int H))), mm.
  split; [reflexivity|]. split; [|exact Hmm].
  destruct (pad2_parse H Hlt) as (Hd & _ & _). pose proof (pad2_length H Hlt) as Hlen.
  destruct (H <? 100); [left | right]; now split.
Qed.

Lemma normalizeTime_output_format_witness :
  exists hh mm, "111:00" = hh ++ ":" ++ mm /\
                (digitString 2 hh \/ digitString 3 hh) /\ digitString 2 mm.
Proof. apply (normalizeTime_output_format "99 pm"). reflexivity. Defined.

(** A padded hour below 24, a colon and two digits is a fixed point of
    [normalizeTime]. *)
Lemma normalizeTime_canonical (H : nat) (mm : string) :
  H < 24 -> digitString 2 mm ->
  let y := padStart 2 "0" (toString (Int H)) ++ ":" ++ mm in
  parseInt (Some y) = Int H /\ normalizeTime y = Ret y.
Proof.
  intros HH Hmm y. assert (Hlt : H < 200) by lia.
  destruct (pad2_parse H Hlt) as (Hd & Hp & Hlen).
  assert (H2 : digitString 2 (padStart 2 "0" (toString (Int H))))
    by (split; [apply Hlen; lia | exact Hd]).
  split.
  - unfold y. cbn [parseInt append]. rewrite digitsValue_stop by exact Hd. exact Hp.
  - unfold y. rewrite (normalizeTime_hhmm _ mm H (or_intror H2) Hmm Hp HH).
    unfold padStart at 1. destruct H2 as [-> _]. reflexivity.
Qed.

(** On a 12-hour input whose matched hour is at most 12, the result has an
    hour below 24 and [normalizeTime] maps it to itself. *)
Theorem normalizeTime_valid_12h_fixed_point (time : string) (m : captures) (h : nat) :
  exec ampm_re time = Some m -> parseInt (group m 1) = Int h -> h <= 12 ->
  exists result,
    normalizeTime time = Ret result /\
    ltb (parseInt (Some result)) 24 = true /\
    normalizeTime result = Ret result.
Proof.
  intros E Hp Hle. rewrite (normalizeTime_ampm _ _ E). exists (convert12 m).
  split; [reflexivity|].
  apply exec_sound in E as (pre & w & rest & _ & Hsem).
  pose proof (ampm_shape _ _ _ _ Hsem) as (_ & _ & _ & _ & _ & H2 & _ & _).
  apply convert12_rule in Hsem as (h' & period & Hp' & _ & _ & Hper & _ & ->).
  rewrite Hp in Hp'. injection Hp' as <-.
  assert (H24 : hour24 period h < 24).
  { unfold hour24. destruct Hper as [-> | ->]; cbn [String.eqb Ascii.eqb Bool.eqb andb];
      destruct (h =? 12) eqn:E12; cbn [negb]; try lia.
    apply Nat.eqb_neq in E12. lia. }
  assert (Hmm : digitString 2 (orElse (group m 2) "00")).
  { destruct H2 as [->|(mm & -> & Hmm)]; [split; reflexivity|].
    pose proof Hmm as (a & b & -> & _)%digitString_2. exact Hmm. }
  destruct (normalizeTime_canonical _ _ H24 Hmm) as [Hy Hn].
  split; [|exact Hn]. rewrite Hy. cbn [ltb]. now apply Nat.ltb_lt.
Qed.

Lemma normalizeTime_valid_12h_fixed_point_witness :
  exists result,
    normalizeTime "12:15 am" = Ret result /\
    ltb (parseInt (Some result)) 24 = true /\
    normalizeTime result = Ret result.
Proof.
  apply (normalizeTime_valid_12h_fixed_point
           "12:15 am" [(3, "am"); (2, "15"); (1, "12")] 12); [reflexivity | reflexivity | lia].
Defined.

(** ** The calendar helpers and the calls they make *)

Section CalendarCalls.
Context {E : Env}.

(** A time that [normalizeTime] rejects, or that is not a string, never
    reaches the calendar: both helpers answer with the error text and leave the
    state as it was. *)
Theorem invalid_time_makes_no_call
    (summary date startTime endTime description email : value) (msg : string) (s : State) :
  normalizeTime_any startTime = Throw msg \/
  (exists formattedStart, normalizeTime_any startTime = Ret formattedStart /\
                          normalizeTime_any endTime = Throw msg) ->
  checkAvailability date startTime endTime s
  = (Ret {| available := false;
            a_message := "Unable to check calendar availability at this time. Error: "
                         ++ msg |}, s) /\
  bookAppointment summary date startTime endTime description email s
  = (Ret {| success := false;
            message := Some ("Unable to book the appointment at this time. Error: " ++ msg);
            eventId := None; link := None; error := None |}, s).
Proof.
  unfold checkAvailability, bookAppointment, tryCatch, bind, lift, ret.
  intros [Hs | (fs & Hs & He)]; rewrite Hs; [|rewrite He]; split; reflexivity.
Qed.

(** Destruct whatever the goal still branches on. *)
Ltac branches :=
  repeat match goal with
         | |- context [match ?x with _ => _ end] => destruct x eqn:?
         end.

Ltac no_call :=
  eexists _, _, []; rewrite app_nil_r;
  split; [reflexivity|]; split; [reflexivity|]; try (split; [|discriminate]);
  left; reflexivity.

Ltac one_call :=
  eexists _, _, [_]; split; [reflexivity|]; split; [reflexivity|];
  right; eexists; reflexivity.

(** [checkAvailability] adds no call or exactly one, a list request; it never
    inserts. *)
Theorem checkAvailability_only_lists (date startTime endTime : value) (s : State) :
  exists r s' rest,
    checkAvailability date startTime endTime s = (Ret r, s') /\
    calls s' = (calls s ++ rest)%list /\
    (rest = [] \/ exists req, rest = [CalendarList req]).
Proof.
  unfold checkAvailability, tryCatch, bind, lift, remote, isoString, ret.
  destruct (normalizeTime_any startTime); [|no_call].
  destruct (normalizeTime_any endTime); [|no_call].
  destruct (Date_parse _); [|no_call].
  destruct (Date_parse _); [|no_call].
  destruct (events_list _ _) as [[response|msg] w]; one_call.
Qed.

(** [bookAppointment] adds no call or exactly one, an insert; a success means
    that the insert was made and accepted, for an event in the time zone
    "America/New_York" that carries the caller and the operator as attendees
    exactly when an e-mail address was given, and the result hands back the id
    and the link of the calendar's answer. *)
Theorem bookAppointment_only_inserts
    (summary date startTime endTime description email : value) (s : State) :
  exists r s' rest,
    bookAppointment summary date startTime endTime description email s = (Ret r, s') /\
    calls s' = (calls s ++ rest)%list /\
    (rest = [] \/ exists req, rest = [CalendarInsert req]) /\
    (success r = true ->
     exists req resp,
       rest = [CalendarInsert req] /\
       events_insert req (world s) = (Ret resp, world s') /\
       eventId r = Some (id resp) /\ link r = Some (htmlLink resp) /\
       e_timeZone (start (resource req)) = "America/New_York" /\
       e_timeZone (end_ (resource req)) = "America/New_York" /\
       attendees (resource req)
       = (if truthy (orDefault email (VStr ""))
          then Some [orDefault email (VStr ""); VStr operatorEmail] else None) /\
       sendUpdates (resource req)
       = (if truthy (orDefault email (VStr "")) then Some "all" else None)).
Proof.
  unfold bookAppointment, tryCatch, bind, lift, remote, isoString, ret.
  destruct (normalizeTime_any startTime); [|no_call].
  destruct (normalizeTime_any endTime); [|no_call].
  destruct (Date_parse _); [|no_call].
  destruct (Date_parse _); [|no_call].
  destruct (events_insert _ _) as [[response|msg] w] eqn:Hins.
  - eexists _, _, [_]. split; [reflexivity|]. split; [reflexivity|].
    split; [right; eexists; reflexivity|].
    intros _. eexists _, response. split; [reflexivity|]. split; [exact Hins|].
    repeat split.
  - eexists _, _, [_]. split; [reflexivity|]. split; [reflexivity|].
    split; [right; eexists; reflexivity | discriminate].
Qed.

(** In index.js the answer is "available" exactly when the calendar's list
    is present and empty; a response without [items] counts as unavailable. *)
Theorem checkAvailability_index_available_iff_empty
    (date startTime endTime formattedStart formattedEnd : value) (tmin tmax : Z)
    (response : ListResponse) (w' : World) (s : State) :
  formatTime_any startTime = Ret formattedStart ->
  formatTime_any endTime = Ret formattedEnd ->
  Date_parse (str date ++ "T" ++ str formattedStart ++ ":00-05:00") = Some tmin ->
  Date_parse (str date ++ "T" ++ str formattedEnd ++ ":00-05:00") = Some tmax ->
  events_list {| l_calendarId := "primary"; timeMin := toISOString tmin;
                 timeMax := toISOString tmax; singleEvents := true |} (world s)
  = (Ret response, w') ->
  exists r s',
    checkAvailability_index date startTime endTime s = (Ret r, s') /\
    (available r = true <-> items response = Some []).
Proof.
  intros Hs He Hmin Hmax Hlist.
  unfold checkAvailability_index, tryCatch, bind, lift, remote, isoString, itemsLength.
  rewrite Hs, He, Hmin, Hmax, Hlist.
  destruct (items response) as [[|e l]|]; cbn; eexists _, _; (split; [reflexivity|]);
    cbn; split; congruence.
Qed.

(** Booking and then checking the same window: when the window is not empty,
    the dates survive [toISOString], and the calendar shows what was inserted
    to the list request for that window, a successful booking is followed by
    the answer "unavailable". *)
Theorem book_then_check_unavailable
    (summary date startTime endTime description email : value)
    (formattedStart formattedEnd : string) (tmin tmax : Z) (s : State) :
  readAfterWrite ->
  normalizeTime_any startTime = Ret formattedStart ->
  normalizeTime_any endTime = Ret formattedEnd ->
  Date_parse (str date ++ "T" ++ formattedStart ++ ":00-05:00") = Some tmin ->
  Date_parse (str date ++ "T" ++ formattedEnd ++ ":00-05:00") = Some tmax ->
  Date_parse (toISOString tmin) = Some tmin ->
  Date_parse (toISOString tmax) = Some tmax ->
  (tmin < tmax)%Z ->
  exists b s1,
    bookAppointment summary date startTime endTime description email s = (Ret b, s1) /\
    exists a s2,
      checkAvailability date startTime endTime s1 = (Ret a, s2) /\
      (success b = true -> available a = false).
Proof.
  intros Hraw Hs He Hmin Hmax Rmin Rmax Hlt.
  unfold bookAppointment, tryCatch, bind, lift, remote, isoString.
  rewrite Hs, He, Hmin, Hmax. cbn [ret].
  destruct (events_insert _ (world s)) as [[resp|msg] w1] eqn:Hins;
    (eexists _, _; split; [reflexivity|]);
    unfold checkAvailability, tryCatch, bind, lift, remote, isoString;
    rewrite Hs, He, Hmin, Hmax; cbn [ret world calls];
    match goal with
    | |- context [events_list ?q w1] =>
        destruct (events_list q w1) as [[lresp|msg'] w2] eqn:Hlist
    end;
    (eexists _, _; split; [reflexivity|]); try discriminate; try reflexivity.
  intros _. cbn [available]. apply filter_none_iff.
  assert (Hin' : date_lt (Date_parse (toISOString tmin)) (Date_parse (toISOString tmax))
                 = true).
  { rewrite Rmin, Rmax. cbn [date_lt]. now apply Z.ltb_lt. }
  destruct (Hraw _ _ _ _ _ _ Hins Hin' Hlist) as (e & l & Hitems & Hin & Hst & Hen).
  exists e. rewrite Hitems. split; [exact Hin|].
  cbn [resource start end_ e_dateTime] in Hst, Hen.
  unfold date_gt. rewrite Hst, Hen, Rmin, Rmax. cbn [date_lt].
  apply Z.ltb_lt in Hlt. now rewrite Hlt.
Qed.

End CalendarCalls.

(** The instants of the event that [events.insert] of the test calendars
    stores are those of the request. *)
Lemma stored_dates (t : string) :
  eventDate (E := demoEnv) {| dateTime := Some t; date := None |} = minutesOfDay t.
Proof. now destruct t. Qed.

(** Both test calendars show what was inserted: the one that returns all its
    events, and the one that honours the bounds of the list request. *)
Lemma demoEnv_readAfterWrite : @readAfterWrite demoEnv.
Proof.
  intros q w resp w' lresp w'' Hins _ Hlist.
  cbn in Hins, Hlist. injection Hins as _ <-. injection Hlist as <- _.
  eexists _, _. split; [reflexivity|]. split; [apply in_or_app; right; left; reflexivity|].
  cbn [ev_start ev_end]. split; apply stored_dates.
Qed.

Lemma windowEnv_readAfterWrite : @readAfterWrite windowEnv.
Proof.
  intros q w resp w' lresp w'' Hins Hlt Hlist.
  cbn in Hins, Hlist. injection Hins as _ <-. injection Hlist as <- _.
  eexists _, _. split; [reflexivity|]. split.
  - apply filter_In. split; [apply in_or_app; right; left; reflexivity|].
    unfold inBounds. cbn [ev_start ev_end timeMin timeMax]. rewrite !stored_dates.
    apply andb_true_intro. split; exact Hlt.
  - cbn [ev_start ev_end]. change (@eventDate windowEnv) with (@eventDate demoEnv).
    split; apply stored_dates.
Qed.

Lemma invalid_time_makes_no_call_witness :
  fst (checkAvailability (E := demoEnv) (VStr "2025-01-10") (VStr "noon") (VStr "15:00")
         (demoState []))
  = Ret {| available := false;
           a_message := "Unable to check calendar availability at this time. Error: "
                        ++ invalidTimeMessage "noon" |}.
Proof.
  now rewrite (proj1 (invalid_time_makes_no_call (E := demoEnv)
                        VNull (VStr "2025-01-10") (VStr "noon") (VStr "15:00") VNull VNull
                        (invalidTimeMessage "noon") (demoState [])
                        (or_introl eq_refl))).
Defined.

Lemma checkAvailability_index_available_iff_empty_witness :
  exists r s',
    checkAvailability_index (E := demoEnv) (VStr "2025-01-10") (VStr "2 PM") (VStr "3 PM")
                            (demoState []) = (Ret r, s') /\
    (available r = true <-> Some (@nil Event) = Some []).
Proof.
  exact (checkAvailability_index_available_iff_empty (E := demoEnv)
           (VStr "2025-01-10") (VStr "2 PM") (VStr "3 PM") (VStr "14:00") (VStr "15:00")
           840%Z 900%Z {| items := Some [] |} [] (demoState [])
           eq_refl eq_refl eq_refl eq_refl eq_refl).
Defined.

Lemma book_then_check_unavailable_witness :
  exists b s1,
    bookAppointment (E := windowEnv) (VStr "Haircut") (VStr "2025-01-10") (VStr "2 PM")
                    (VStr "3 PM") VUndefined VUndefined (@Build_State windowEnv [lunch] [])
    = (Ret b, s1) /\
    exists a s2,
      checkAvailability (E := windowEnv) (VStr "2025-01-10") (VStr "2 PM") (VStr "3 PM") s1
      = (Ret a, s2) /\
      (success b = true -> available a = false).
Proof.
  apply (book_then_check_unavailable (E := windowEnv) (VStr "Haircut") (VStr "2025-01-10")
           (VStr "2 PM") (VStr "3 PM") VUndefined VUndefined "14:00" "15:00" 840%Z 900%Z
           (@Build_State windowEnv [lunch] []) windowEnv_readAfterWrite); reflexivity.
Defined.

(** On the calendar that honours the bounds, the slot is free before the
    booking (the lunch that ends at 14:00 is not even listed) and taken after
    it. *)
Example book_then_check_on_bounded_calendar :
  let s0 := @Build_State windowEnv [lunch] [] in
  let s1 := snd (bookAppointment (E := windowEnv) (VStr "Haircut") (VStr "2025-01-10")
                   (VStr "2 PM") (VStr "3 PM") VUndefined VUndefined s0) in
  match fst (checkAvailability (E := windowEnv) (VStr "2025-01-10") (VStr "2 PM")
               (VStr "3 PM") s0) with
  | Ret a => available a = true
  | Throw _ => False
  end /\
  match fst (checkAvailability (E := windowEnv) (VStr "2025-01-10") (VStr "2 PM")
               (VStr "3 PM") s1) with
  | Ret a => available a = false
  | Throw _ => False
  end.
Proof. split; vm_compute; reflexivity. Qed.

(** ** Counting calls and bounding results *)

Section CountingFacts.
Context {E : Env}.
Variable P : Call -> bool.

Lemma addsAtMost_ret {A : Type} (n : nat) (a : A) : addsAtMost P n (ret a).
Proof. intros s. exists []. cbn. rewrite app_nil_r. split; [reflexivity | lia]. Qed.

Lemma addsAtMost_lift {A : Type} (n : nat) (x : Exc A) : addsAtMost P n (lift x).
Proof. intros s. exists []. cbn. rewrite app_nil_r. split; [reflexivity | lia]. Qed.

Lemma addsAtMost_weaken {A : Type} (n n' : nat) (m : M A) :
  n <= n' -> addsAtMost P n m -> addsAtMost P n' m.
Proof. intros Hle Hm s. destruct (Hm s) as (rest & H1 & H2). exists rest. split; [exact H1 | lia]. Qed.

Lemma addsAtMost_bind {A B : Type} (n1 n2 : nat) (m : M A) (k : A -> M B) :
  addsAtMost P n1 m -> (forall a, addsAtMost P n2 (k a)) -> addsAtMost P (n1 + n2) (bind m k).
Proof.
  intros Hm Hk s. unfold bind. destruct (Hm s) as (r1 & H1 & L1).
  destruct (m s) as [[a|msg] s1]; cbn [snd] in *.
  - destruct (Hk a s1) as (r2 & H2 & L2). exists (r1 ++ r2)%list.
    rewrite H2, H1, app_assoc, filter_app, length_app. split; [reflexivity | lia].
  - exists r1. split; [exact H1 | lia].
Qed.

Lemma addsAtMost_bind_lift {A B : Type} (n : nat) (x : Exc A) (k : A -> M B) :
  (forall a, addsAtMost P n (k a)) -> addsAtMost P n (bind (lift x) k).
Proof. intros Hk. apply (addsAtMost_bind 0 n); [apply addsAtMost_lift | exact Hk]. Qed.

Lemma addsAtMost_remote {A : Type} (n : nat) (c : Call) (f : World -> Exc A * World) :
  (if P c then 1 else 0) <= n -> addsAtMost P n (remote c f).
Proof.
  intros Hn s. exists [c]. unfold remote. destruct (f (world s)) as [r w]. cbn.
  split; [reflexivity|]. destruct (P c); cbn; lia.
Qed.

Lemma addsAtMost_bind_counted {A B : Type} (n : nat) (c : Call)
      (f : World -> Exc A * World) (k : A -> M B) :
  (forall a, addsAtMost P n (k a)) -> addsAtMost P (S n) (bind (remote c f) k).
Proof.
  intros Hk. apply (addsAtMost_bind 1 n); [|exact Hk].
  apply addsAtMost_remote. destruct (P c); lia.
Qed.

Lemma addsAtMost_bind_free {A B : Type} (n : nat) (c : Call)
      (f : World -> Exc A * World) (k : A -> M B) :
  P c = false -> (forall a, addsAtMost P n (k a)) -> addsAtMost P n (bind (remote c f) k).
Proof.
  intros Hc Hk. apply (addsAtMost_bind 0 n); [|exact Hk].
  apply addsAtMost_remote. now rewrite Hc.
Qed.

Lemma addsAtMost_tryCatch {A : Type} (n : nat) (body : M A) (handler : string -> M A) :
  addsAtMost P n body -> (forall e, addsAtMost P 0 (handler e)) ->
  addsAtMost P n (tryCatch body handler).
Proof.
  intros Hb Hh s. unfold tryCatch. destruct (Hb s) as (r1 & H1 & L1).
  destruct (body s) as [[a|msg] s1]; cbn [snd] in *.
  - exists r1. split; [exact H1 | exact L1].
  - destruct (Hh msg s1) as (r2 & H2 & L2). exists (r1 ++ r2)%list.
    rewrite H2, H1, app_assoc, filter_app, length_app. split; [reflexivity | lia].
Qed.

End CountingFacts.

Section ResultFacts.
Context {E : Env}.

Lemma returnsOnly_ret {A : Type} (Q : A -> Prop) (a : A) : Q a -> returnsOnly Q (ret a).
Proof. intros Ha s a' s' [= <- _]. exact Ha. Qed.

Lemma returnsOnly_throw {A : Type} (Q : A -> Prop) (msg : string) :
  returnsOnly Q (lift (Throw msg)).
Proof. intros s a s' H. discriminate H. Qed.

Lemma returnsOnly_bind {A B : Type} (Q : B -> Prop) (m : M A) (k : A -> M B) :
  (forall a, returnsOnly Q (k a)) -> returnsOnly Q (bind m k).
Proof.
  intros Hk s b s' H. apply bind_ret_inv in H as (a & s1 & _ & H). exact (Hk a s1 b s' H).
Qed.

Lemma returnsOnly_tryCatch {A : Type} (Q : A -> Prop) (body : M A) (handler : string -> M A) :
  returnsOnly Q body -> (forall e, returnsOnly Q (handler e)) ->
  returnsOnly Q (tryCatch body handler).
Proof.
  intros Hb Hh s a s' H. unfold tryCatch in H.
  destruct (body s) as [[a'|msg] s1] eqn:Eb.
  - injection H as <- <-. exact (Hb _ _ _ Eb).
  - exact (Hh msg s1 a s' H).
Qed.

End ResultFacts.

(** Walk through a handler, one statement at a time. *)
Ltac count_step :=
  first
    [ apply addsAtMost_ret
    | apply addsAtMost_lift
    | apply addsAtMost_tryCatch; [|intros ?]
    | apply addsAtMost_bind_lift; intros ?
    | apply addsAtMost_bind_free; [reflexivity | intros ?]
    | apply addsAtMost_bind_counted; intros ?
    | match goal with
      | |- addsAtMost _ _ (if ?b then _ else _) => destruct b
      | |- addsAtMost _ _ (match ?x with _ => _ end) => destruct x
      | |- addsAtMost _ _ (let _ := _ in _) => cbv zeta
      end ].
Ltac count := repeat count_step.

Ltac result_step :=
  first
    [ apply returnsOnly_ret
    | apply returnsOnly_throw
    | apply returnsOnly_tryCatch; [|intros ?]
    | apply returnsOnly_bind; intros ?
    | match goal with
      | |- returnsOnly _ (if ?b then _ else _) => destruct b
      | |- returnsOnly _ (match ?x with _ => _ end) => destruct x
      end ].
Ltac results := repeat result_step.

Section HelperCounts.
Context {E : Env}.



Lemma checkAvailability_conv_counts (P : Call -> bool) (date startTime endTime : value) :
  addsAtMost P 1 (checkAvailability_conv date startTime endTime) /\
  addsAtMost isModel 0 (checkAvailability_conv date startTime endTime).
Proof. split; unfold checkAvailability_conv; count. Qed.

Lemma bookAppointment_conv_counts (P : Call -> bool)
      (summary date startTime endTime description : value) :
  addsAtMost P 1 (bookAppointment_conv summary date startTime endTime description) /\
  addsAtMost isModel 0 (bookAppointment_conv summary date startTime endTime description).
Proof. split; unfold bookAppointment_conv; count. Qed.

End HelperCounts.

(** ** The tool webhook as a whole *)

Section WebhookTotals.
Context {E : Env}.







(** Arguments that come as a JSON string are handled as the value they parse
    to, provided that value is not itself a string (a string would be parsed a
    second time). *)
Theorem runToolCall_string_arguments (id name : value) (a : string) (v : value) (s : State) :
  JSON_parse a = Ret v -> (forall t, v <> VStr t) ->
  runToolCall {| tc_id := id; tc_name := name; tc_arguments := VStr a |} s
  = runToolCall {| tc_id := id; tc_name := name; tc_arguments := v |} s.
Proof.
  intros Hp Hv. unfold runToolCall. cbn [tc_id tc_name tc_arguments]. rewrite Hp.
  destruct v; try reflexivity. now destruct (Hv s0).
Qed.

End WebhookTotals.


Lemma runToolCall_string_arguments_witness :
  runToolCall (E := demoEnv)
    {| tc_id := VStr "call_3"; tc_name := VStr "check_availability";
       tc_arguments := VStr "{}" |}
    (demoState [])
  = runToolCall (E := demoEnv)
      {| tc_id := VStr "call_3"; tc_name := VStr "check_availability";
         tc_arguments := VObj [] |}
      (demoState []).
Proof.
  apply (runToolCall_string_arguments (E := demoEnv)); [reflexivity | discriminate].
Defined.

(** ** The conversational handlers as a whole *)

Section AddsOnlyFacts.
Context {E : Env}.
Variable Q : Call -> Prop.

Lemma addsOnly_ret {A : Type} (a : A) : addsOnly Q (ret a).
Proof. intros s. exists []. cbn. rewrite app_nil_r. split; [reflexivity | constructor]. Qed.

Lemma addsOnly_lift {A : Type} (x : Exc A) : addsOnly Q (lift x).
Proof. intros s. exists []. cbn. rewrite app_nil_r. split; [reflexivity | constructor]. Qed.

Lemma addsOnly_bind {A B : Type} (m : M A) (k : A -> M B) :
  addsOnly Q m -> (forall a, addsOnly Q (k a)) -> addsOnly Q (bind m k).
Proof.
  intros Hm Hk s. unfold bind. destruct (Hm s) as (r1 & H1 & L1).
  destruct (m s) as [[a|msg] s1]; cbn [snd] in *.
  - destruct (Hk a s1) as (r2 & H2 & L2). exists (r1 ++ r2)%list.
    rewrite H2, H1, app_assoc. split; [reflexivity | now apply Forall_app].
  - now exists r1.
Qed.

Lemma addsOnly_remote {A : Type} (c : Call) (f : World -> Exc A * World) :
  Q c -> addsOnly Q (remote c f).
Proof.
  intros Hc s. exists [c]. unfold remote. destruct (f (world s)) as [r w]. cbn.
  split; [reflexivity | now constructor].
Qed.

Lemma addsOnly_tryCatch {A : Type} (body : M A) (handler : string -> M A) :
  addsOnly Q body -> (forall e, addsOnly Q (handler e)) -> addsOnly Q (tryCatch body handler).
Proof.
  intros Hb Hh s. unfold tryCatch. destruct (Hb s) as (r1 & H1 & L1).
  destruct (body s) as [[a|msg] s1]; cbn [snd] in *.
  - now exists r1.
  - destruct (Hh msg s1) as (r2 & H2 & L2). exists (r1 ++ r2)%list.
    rewrite H2, H1, app_assoc. split; [reflexivity | now apply Forall_app].
Qed.

End AddsOnlyFacts.

Ltac only_step :=
  first
    [ apply addsOnly_ret
    | apply addsOnly_lift
    | apply addsOnly_tryCatch; [|intros ?]
    | apply addsOnly_bind; [|intros ?]
    | apply addsOnly_remote
    | match goal with
      | |- addsOnly _ (if ?b then _ else _) => destruct b
      | |- addsOnly _ (match ?x with _ => _ end) => destruct x
      end ].
Ltac only_calls := repeat only_step.

Section ConversationTotals.
Context {E : Env}.

Lemma useTool_counts (name : string) (input : value) :
  addsAtMost isModel 0 (useTool name input) /\ addsAtMost isCalendar 1 (useTool name input).
Proof.
  split; unfold useTool; count.
  - apply (addsAtMost_bind isModel 0 0);
      [apply (checkAvailability_conv_counts isModel) | intros ?; count].
  - apply (addsAtMost_bind isModel 0 0);
      [apply (bookAppointment_conv_counts isModel) | intros ?; count].
  - apply (addsAtMost_bind isCalendar 1 0);
      [apply (checkAvailability_conv_counts isCalendar) | intros ?; count].
  - apply (addsAtMost_bind isCalendar 1 0);
      [apply (bookAppointment_conv_counts isCalendar) | intros ?; count].
Qed.

Lemma answerTurns_counts (systemMessage : string) (claudeMessages : list Message) :
  addsAtMost isModel 2 (answerTurns systemMessage claudeMessages) /\
  addsAtMost isCalendar 1 (answerTurns systemMessage claudeMessages).
Proof.
  split; unfold answerTurns; count.
  - apply (addsAtMost_bind isModel 0 1); [apply useTool_counts | intros ?; count].
  - apply (addsAtMost_bind isCalendar 1 0); [apply useTool_counts | intros ?; count].
Qed.

Lemma handleConversation_counts (messages : MessagesField) :
  addsAtMost isModel 2 (handleConversation messages) /\
  addsAtMost isCalendar 1 (handleConversation messages).
Proof.
  split; unfold handleConversation; count; apply answerTurns_counts.
Qed.

Lemma answerTurns_status (systemMessage : string) (claudeMessages : list Message) :
  returnsOnly (fun r => status r = 200 \/ status r = 400 \/ status r = 500)
              (answerTurns systemMessage claudeMessages).
Proof. unfold answerTurns. results; cbn; auto. Qed.

Lemma answerTurns_returns (systemMessage : string) (claudeMessages : list Message)
      (s : State) :
  exists r s', answerTurns systemMessage claudeMessages s = (Ret r, s').
Proof.
  unfold answerTurns. destruct (_ =? 0); [eexists _, _; reflexivity|].
  match goal with
  | |- context [tryCatch ?b (fun error => ret (@?f error))] =>
      destruct (tryCatch_returns b f s) as (r & s' & Hrun)
  end.
  now exists r, s'.
Qed.

(** An array without [null] is an array of messages. *)
Lemma elements_without_null (l : list Element) :
  existsb isNull l = false -> exists turns, l = elements turns.
Proof.
  induction l as [|[|m] l IH]; cbn [existsb isNull orb]; intros H.
  - now exists [].
  - discriminate.
  - destruct (IH H) as (turns & ->). now exists (m :: turns).
Qed.

(** With a [null] among the elements the filter throws, and the search for
    the system turn before it returns or throws the same error. *)
Lemma nonSystem_null (l : list Element) :
  existsb isNull l = true -> nonSystem l = Throw roleOfNull.
Proof.
  induction l as [|[|m] l IH]; cbn [existsb isNull orb nonSystem]; intros H.
  - discriminate.
  - reflexivity.
  - now rewrite (IH H).
Qed.

Lemma findSystem_null (l : list Element) :
  (exists found, findSystem l = Ret found) \/ findSystem l = Throw roleOfNull.
Proof.
  induction l as [|[|m] l IH]; cbn [findSystem]; eauto.
  destruct (isSystem m); eauto.
Qed.

(** [handleConversation] answers every payload but an array that holds a
    [null]: with status 200, 400 or 500.  On an array that holds a [null] it
    throws while it reads the roles, ahead of its [try], sends nothing and
    makes no remote call.  In every case it calls the model at most twice and
    the calendar at most once. *)
Theorem handleConversation_answers_unless_null (messages : MessagesField) (s : State) :
  (exists rest,
     calls (snd (handleConversation messages s)) = (calls s ++ rest)%list /\
     List.length (filter isModel rest) <= 2 /\
     List.length (filter isCalendar rest) <= 1) /\
  (holdsNull messages = false ->
   exists r, fst (handleConversation messages s) = Ret r /\
             (status r = 200 \/ status r = 400 \/ status r = 500)) /\
  (holdsNull messages = true ->
   handleConversation messages s = (Throw roleOfNull, s)).
Proof.
  split; [|split].
  - destruct (handleConversation_counts messages) as [Hmodel Hcal].
    destruct (Hmodel s) as (rest & Hcalls & Hlen).
    destruct (Hcal s) as (rest' & Hcalls' & Hlen').
    rewrite Hcalls in Hcalls'. apply app_inv_head in Hcalls' as <-.
    now exists rest.
  - intros Hnull.
    assert (Hrun : exists r s', handleConversation messages s = (Ret r, s')).
    { destruct messages as [| |l]; try (eexists _, _; reflexivity).
      destruct (elements_without_null l Hnull) as ([|m turns] & ->);
        [eexists _, _; reflexivity|].
      rewrite handleConversation_elements by discriminate. apply answerTurns_returns. }
    destruct Hrun as (r & s' & Hrun). exists r. rewrite Hrun. split; [reflexivity|].
    destruct messages as [| |l];
      try (injection Hrun as <- _; cbn; auto).
    destruct (elements_without_null l Hnull) as ([|m turns] & ->).
    + injection Hrun as <- _. cbn. auto.
    + rewrite handleConversation_elements in Hrun by discriminate.
      exact (answerTurns_status _ _ s r s' Hrun).
  - destruct messages as [| |l]; try discriminate. cbn [holdsNull]. intros Hnull.
    destruct l as [|e l]; [discriminate|]. cbn [handleConversation].
    unfold bind, lift.
    destruct (findSystem_null (e :: l)) as [(found & ->) | ->]; [|reflexivity].
    now rewrite (nonSystem_null _ Hnull).
Qed.

(** Every request [handleConversation] sends to the model carries the system
    prompt of the payload and starts with its canonical turns, also the second
    one, which only appends to them. *)
Theorem handleConversation_requests_keep_turns (l : list Message) (s : State) :
  exists rest,
    calls (snd (handleConversation (AnArray (elements l)) s)) = (calls s ++ rest)%list /\
    Forall (fun c => match c with
                     | ModelCreate req =>
                         system req = systemMessage l /\
                         firstn (List.length (claudeMessages l)) (messages req)
                         = map asTurn (claudeMessages l)
                     | _ => True
                     end) rest.
Proof.
  destruct l as [|m l]; [exists []; cbn; rewrite app_nil_r; split; [reflexivity | constructor]|].
  rewrite handleConversation_elements by discriminate. revert s.
  set (l0 := m :: l).
  change (addsOnly (fun c => match c with
                             | ModelCreate req =>
                                 system req = systemMessage l0 /\
                                 firstn (List.length (claudeMessages l0)) (messages req)
                                 = map asTurn (claudeMessages l0)
                             | _ => True
                             end) (answerTurns (systemMessage l0) (claudeMessages l0))).
  unfold answerTurns, useTool, checkAvailability_conv, bookAppointment_conv.
  only_calls; try exact I;
    (split; [reflexivity|]); cbn [messages]; rewrite <- (length_map asTurn).
  - apply firstn_all.
  - rewrite firstn_app, firstn_all, Nat.sub_diag. cbn [firstn]. apply app_nil_r.
Qed.

(** When the first completion is plain text, the answer is its first text
    block (or the stock sentence when it has none), after exactly one call. *)
Theorem handleConversation_direct_reply
    (l : list Message) (s : State) (response : Completion) (w : World) :
  claudeMessages l <> [] ->
  messages_create {| max_tokens := 200; system := systemMessage l;
                     messages := map asTurn (claudeMessages l) |} (world s)
  = (Ret response, w) ->
  stop_reason response <> "tool_use" ->
  handleConversation (AnArray (elements l)) s
  = (Ret (json (ChoicesBody "assistant"
                  (firstText (c_content response) "I'm here to help!"))),
     {| world := w;
        calls := calls s
                 ++ [ModelCreate {| max_tokens := 200; system := systemMessage l;
                                    messages := map asTurn (claudeMessages l) |}] |}).
Proof.
  intros Hne Hc Hstop. destruct l as [|m l]; [now destruct Hne|].
  rewrite handleConversation_elements by discriminate. unfold answerTurns.
  destruct (claudeMessages (m :: l)) as [|c cs] eqn:Ec; [now destruct Hne|].
  cbn [List.length Nat.eqb]. rewrite <- Ec in *.
  unfold tryCatch, bind, remote. rewrite Hc.
  apply String.eqb_neq in Hstop. rewrite Hstop. reflexivity.
Qed.

(** When the model call fails, the answer is status 500 with the error's
    message, after that one call. *)
Theorem handleConversation_model_failure
    (l : list Message) (s : State) (msg : string) (w : World) :
  claudeMessages l <> [] ->
  messages_create {| max_tokens := 200; system := systemMessage l;
                     messages := map asTurn (claudeMessages l) |} (world s)
  = (Throw msg, w) ->
  handleConversation (AnArray (elements l)) s
  = (Ret (statusJson 500 (ErrorBody msg)),
     {| world := w;
        calls := calls s
                 ++ [ModelCreate {| max_tokens := 200; system := systemMessage l;
                                    messages := map asTurn (claudeMessages l) |}] |}).
Proof.
  intros Hne Hc. destruct l as [|m l]; [now destruct Hne|].
  rewrite handleConversation_elements by discriminate. unfold answerTurns.
  destruct (claudeMessages (m :: l)) as [|c cs] eqn:Ec; [now destruct Hne|].
  cbn [List.length Nat.eqb]. rewrite <- Ec in *.
  unfold tryCatch, bind, remote. rewrite Hc. reflexivity.
Qed.

(** When the model asks for a tool, the tool runs, and the second request is
    the canonical turns, the assistant's blocks as they came, and the tool's
    outcome under the id of the request; the answer is the first text block of
    the second completion, or "Done!". *)
Theorem handleConversation_tool_round_trip
    (l : list Message) (s s2 : State) (response final : Completion) (w1 w3 : World)
    (id name : string) (input : value) (outcome : ToolOutcome) :
  let req := {| max_tokens := 200; system := systemMessage l;
                messages := map asTurn (claudeMessages l) |} in
  let req2 := {| max_tokens := 150; system := systemMessage l;
                 messages :=
                   map asTurn (claudeMessages l)
                   ++ [ {| t_role := "assistant"; t_content := Blocks (c_content response) |};
                        {| t_role := "user";
                           t_content := Blocks [ToolResultBlock id outcome] |} ] |} in
  claudeMessages l <> [] ->
  messages_create req (world s) = (Ret response, w1) ->
  stop_reason response = "tool_use" ->
  find isToolUse (c_content response) = Some (ToolUseBlock id name input) ->
  useTool name input {| world := w1; calls := calls s ++ [ModelCreate req] |}
  = (Ret outcome, s2) ->
  messages_create req2 (world s2) = (Ret final, w3) ->
  handleConversation (AnArray (elements l)) s
  = (Ret (json (ChoicesBody "assistant" (firstText (c_content final) "Done!"))),
     {| world := w3; calls := calls s2 ++ [ModelCreate req2] |}).
Proof.
  intros req req2 Hne Hc Hstop Hfind Htool Hc2. subst req req2.
  destruct l as [|m l]; [now destruct Hne|].
  rewrite handleConversation_elements by discriminate. unfold answerTurns.
  destruct (claudeMessages (m :: l)) as [|c cs] eqn:Ec; [now destruct Hne|].
  cbn [List.length Nat.eqb]. rewrite <- Ec in *.
  unfold tryCatch, bind at 1, remote at 1. rewrite Hc, Hstop.
  cbn [String.eqb Ascii.eqb Bool.eqb]. rewrite Hfind. unfold bind at 1. rewrite Htool.
  unfold bind, remote. rewrite Hc2. reflexivity.
Qed.

End ConversationTotals.

Lemma handleConversation_answers_unless_null_witness :
  (exists r,
     fst (handleConversation (E := demoEnv) (AnArray (elements hello)) (demoState [])) = Ret r /\
     (status r = 200 \/ status r = 400 \/ status r = 500)) /\
  handleConversation (E := demoEnv)
    (AnArray [EMsg {| role := "system"; content := "Be brief." |};
              EMsg {| role := "user"; content := "Hi" |}; ENull])
    (demoState [])
  = (Throw roleOfNull, demoState []).
Proof.
  split.
  - exact (proj1 (proj2 (handleConversation_answers_unless_null (E := demoEnv)
                           (AnArray (elements hello)) (demoState []))) eq_refl).
  - exact (proj2 (proj2 (handleConversation_answers_unless_null (E := demoEnv)
                           (AnArray [EMsg {| role := "system"; content := "Be brief." |};
                                     EMsg {| role := "user"; content := "Hi" |}; ENull])
                           (demoState []))) eq_refl).
Defined.

Lemma handleConversation_direct_reply_witness :
  fst (handleConversation (E := demoEnv) (AnArray (elements hello)) (demoState []))
  = Ret (json (ChoicesBody "assistant" "Sure.")).
Proof.
  now rewrite (handleConversation_direct_reply (E := demoEnv) hello (demoState [])
                 {| stop_reason := "end_turn"; c_content := [TextBlock "Sure."] |} []
                 ltac:(discriminate) eq_refl ltac:(discriminate)).
Defined.

Lemma handleConversation_model_failure_witness :
  fst (handleConversation (E := brokenModelEnv) (AnArray (elements hello))
         (@Build_State brokenModelEnv [] []))
  = Ret (statusJson 500 (ErrorBody "Overloaded")).
Proof.
  now rewrite (handleConversation_model_failure (E := brokenModelEnv) hello
                 (@Build_State brokenModelEnv [] []) "Overloaded" []
                 ltac:(discriminate) eq_refl).
Defined.

Lemma handleConversation_tool_round_trip_witness :
  fst (handleConversation (E := toolEnv) (AnArray (elements hello)) (@Build_State toolEnv [] []))
  = Ret (json (ChoicesBody "assistant" "It is free.")).
Proof.
  now rewrite (handleConversation_tool_round_trip (E := toolEnv) hello
                 (@Build_State toolEnv [] [])
                 (snd (useTool (E := toolEnv) "check_availability"
                         (VObj [("date", VStr "2025-01-10"); ("start_time", VStr "14:00");
                                ("end_time", VStr "15:00")])
                         (@Build_State toolEnv []
                            [ModelCreate {| max_tokens := 200;
                                            system := systemMessage hello;
                                            messages := map asTurn (claudeMessages hello) |}])))
                 {| stop_reason := "tool_use"; c_content := [askedTool] |}
                 {| stop_reason := "end_turn"; c_content := [TextBlock "It is free."] |}
                 [] [] "toolu_1" "check_availability"
                 (VObj [("date", VStr "2025-01-10"); ("start_time", VStr "14:00");
                        ("end_time", VStr "15:00")])
                 (OutAvailability true "2025-01-10 from 14:00 to 15:00 is available.")
                 ltac:(discriminate) eq_refl eq_refl eq_refl eq_refl eq_refl).
Defined.

(** ** The conversational webhook without a guard *)

Section UnguardedWebhook.
Context {E : Env}.

Ltac growing :=
  repeat first
    [ apply grows_ret
    | apply grows_lift
    | apply grows_remote
    | assumption
    | apply grows_bind; [|intros ?]
    | apply grows_tryCatch; [|intros ?]
    | match goal with
      | |- grows (if ?b then _ else _) => destruct b
      | |- grows (match ?x with _ => _ end) => destruct x
      end ].

Lemma grows_useTool_vapi (name : string) (input : value) : grows (useTool_vapi name input).
Proof.
  unfold useTool_vapi, checkAvailability_conv, bookAppointment_conv. growing.
Qed.

Lemma webhook_conv_status (input : option (list Message)) :
  returnsOnly (fun r => v_status r = 200 \/ v_status r = 500) (webhook_conv input).
Proof. unfold webhook_conv. results; cbn; auto. Qed.

(** The webhook that reads [messagesOpenAIFormatted] has no guard: with no
    usable turn (no list, an empty list, system turns only) it still calls the
    model, with an empty list of messages, and answers with status 200 or
    500, never 400. *)
Theorem webhook_conv_unguarded (input : option (list Message)) (s : State) :
  forallb isSystem (match input with Some l => l | None => [] end) = true ->
  exists r s' rest,
    webhook_conv input s = (Ret r, s') /\
    (v_status r = 200 \/ v_status r = 500) /\
    calls s' = (calls s
                ++ ModelCreate
                     {| max_tokens := 200;
                        system := systemMessage (match input with Some l => l | None => [] end);
                        messages := [] |}
                   :: rest)%list.
Proof.
  intros Hsys.
  assert (Hrun : exists r s' rest,
             webhook_conv input s = (Ret r, s') /\
             calls s' = (calls s
                ++ ModelCreate
                     {| max_tokens := 200;
                        system := systemMessage (match input with Some l => l | None => [] end);
                        messages := [] |}
                   :: rest)%list).
  { unfold webhook_conv. rewrite (claudeMessages_only_system _ Hsys). cbn [map].
    apply first_call. intros response.
    destruct (String.eqb (stop_reason response) "tool_use"); [|apply grows_ret].
    destruct (find isToolUse (c_content response)) as [[t|id name args|i c]|];
      try apply grows_lift.
    apply grows_bind; [apply grows_useTool_vapi | intros out; growing]. }
  destruct Hrun as (r & s' & rest & Hrun & Hcalls). exists r, s', rest.
  split; [exact Hrun|]. split; [|exact Hcalls].
  exact (webhook_conv_status input s r s' Hrun).
Qed.

End UnguardedWebhook.

Lemma webhook_conv_unguarded_witness :
  exists r s' rest,
    webhook_conv (E := demoEnv) None (demoState []) = (Ret r, s') /\
    (v_status r = 200 \/ v_status r = 500) /\
    calls s' = ([] ++ ModelCreate {| max_tokens := 200; system := defaultPersona;
                                     messages := [] |} :: rest)%list.
Proof. exact (webhook_conv_unguarded (E := demoEnv) None (demoState []) eq_refl). Defined.

(** ** More on the canonical form *)

Lemma toClaude_not_system (m : Message) : isSystem (toClaude m) = false.
Proof. unfold isSystem, toClaude. cbn [role]. now destruct (String.eqb (role m) "assistant"). Qed.

Lemma toClaude_idempotent (m : Message) : toClaude (toClaude m) = toClaude m.
Proof. unfold toClaude. cbn [role content]. now destruct (String.eqb (role m) "assistant"). Qed.

(** The canonical turns hold the roles "user" and "assistant" only, are not
    more than the messages received, and are already canonical: canonicalising
    them again changes nothing. *)
Theorem claudeMessages_canonical (l : list Message) :
  Forall (fun m => role m = "user" \/ role m = "assistant") (claudeMessages l) /\
  List.length (claudeMessages l) <= List.length l /\
  claudeMessages (claudeMessages l) = claudeMessages l.
Proof.
  unfold claudeMessages. split; [|split].
  - apply Forall_map, Forall_forall. intros m _. unfold toClaude. cbn [role].
    destruct (String.eqb (role m) "assistant"); auto.
  - rewrite length_map. apply filter_length_le.
  - rewrite filter_all.
    + rewrite map_map. apply map_ext. apply toClaude_idempotent.
    + apply forallb_forall. intros m (m' & <- & _)%in_map_iff.
      now rewrite toClaude_not_system.
Qed.

(** With several system turns the first one supplies the prompt and all of
    them are left out of the turns; the content of the later ones is lost. *)
Theorem first_system_turn_wins (pre post : list Message) (sys : Message) :
  isSystem sys = true -> forallb (fun m => negb (isSystem m)) pre = true ->
  systemMessage (pre ++ sys :: post)
  = (if String.eqb (content sys) "" then defaultPersona else content sys) /\
  claudeMessages (pre ++ sys :: post) = (map toClaude pre ++ claudeMessages post)%list.
Proof.
  intros Hsys Hpre. split.
  - unfold systemMessage. rewrite (find_system_after pre post sys Hsys Hpre).
    cbn [option_map]. now destruct (content sys).
  - unfold claudeMessages. rewrite filter_app, map_app. cbn [filter]. rewrite Hsys.
    cbn [negb]. now rewrite (filter_all _ pre Hpre).
Qed.

Lemma first_system_turn_wins_witness :
  systemMessage [ {| role := "system"; content := "One." |};
                  {| role := "user"; content := "Hi" |};
                  {| role := "system"; content := "Two." |} ] = "One." /\
  claudeMessages [ {| role := "system"; content := "One." |};
                   {| role := "user"; content := "Hi" |};
                   {| role := "system"; content := "Two." |} ]
  = [ {| role := "user"; content := "Hi" |} ].
Proof.
  exact (first_system_turn_wins []
           [ {| role := "user"; content := "Hi" |}; {| role := "system"; content := "Two." |} ]
           {| role := "system"; content := "One." |} eq_refl eq_refl).
Defined.

(** The system prompt handed to the model is never the empty string. *)
Theorem systemMessage_not_empty (l : list Message) : systemMessage l <> "".
Proof.
  unfold systemMessage. destruct (option_map content (find isSystem l)) as [[|c t]|];
    discriminate.
Qed.

(** ** Twelve-hour times, by their spelling *)

(** Every time of the 12-hour clock, written with or without minutes, with or
    without a blank before the suffix, and with the suffix in either case,
    comes out as the 24-hour time it stands for. *)
Theorem normalizeTime_12h_table (h m : nat) (sep period : string) :
  1 <= h <= 12 -> m < 60 -> In sep [""; " "] -> In period ["AM"; "PM"; "am"; "pm"] ->
  normalizeTime (toString (Int h) ++ ":" ++ padStart 2 "0" (toString (Int m)) ++ sep ++ period)
  = Ret (padStart 2 "0" (toString (Int (hour24 (toUpperCase period) h))) ++ ":"
         ++ padStart 2 "0" (toString (Int m))) /\
  normalizeTime (toString (Int h) ++ sep ++ period)
  = Ret (padStart 2 "0" (toString (Int (hour24 (toUpperCase period) h))) ++ ":00").
Proof.
  intros Hh Hm Hsep Hper.
  pose (same := fun (x : Exc string) (y : string) =>
                  match x with Ret z => String.eqb z y | Throw _ => false end).
  assert (Hsame : forall x y, same x y = true -> x = Ret y).
  { intros [z|msg] y H; [|discriminate H]. apply String.eqb_eq in H. now subst. }
  assert (Hall :
    forallb (fun h => forallb (fun m => forallb (fun sep => forallb (fun period =>
      same (normalizeTime (toString (Int h) ++ ":" ++ padStart 2 "0" (toString (Int m))
                           ++ sep ++ period))
           (padStart 2 "0" (toString (Int (hour24 (toUpperCase period) h))) ++ ":"
            ++ padStart 2 "0" (toString (Int m)))
      && same (normalizeTime (toString (Int h) ++ sep ++ period))
              (padStart 2 "0" (toString (Int (hour24 (toUpperCase period) h))) ++ ":00"))
      ["AM"; "PM"; "am"; "pm"]) [""; " "]) (seq 0 60)) (seq 1 12) = true)
    by (vm_compute; reflexivity).
  rewrite forallb_forall in Hall. specialize (Hall h). rewrite forallb_forall in Hall.
  assert (Hin : In h (seq 1 12)) by (apply in_seq; lia).
  specialize (Hall Hin m). rewrite forallb_forall in Hall.
  assert (Hin' : In m (seq 0 60)) by (apply in_seq; lia).
  specialize (Hall Hin' sep Hsep). rewrite forallb_forall in Hall.
  specialize (Hall period Hper). apply andb_prop in Hall as [H1 H2].
  split; now apply Hsame.
Qed.

Lemma normalizeTime_12h_table_witness :
  normalizeTime "11:59 pm" = Ret "23:59" /\ normalizeTime "11 pm" = Ret "23:00".
Proof.
  apply (normalizeTime_12h_table 11 59 " " "pm"); [lia | lia | |]; cbn; tauto.
Defined.

(** ** [checkAvailability] of index.js *)

Ltac without_call :=
  eexists _, _, []; rewrite app_nil_r;
  split; [reflexivity|]; split; [reflexivity|]; split; [left; reflexivity | discriminate].

Section IndexCalls.
Context {E : Env}.

(** [checkAvailability] of index.js always answers; it adds no call or exactly
    one list request, and whenever it cannot read the list (an unreadable
    date, a rejected request, a response without items) its answer is
    "unavailable". *)
Theorem checkAvailability_index_only_lists (date startTime endTime : value) (s : State) :
  exists r s' rest,
    checkAvailability_index date startTime endTime s = (Ret r, s') /\
    calls s' = (calls s ++ rest)%list /\
    (rest = [] \/ exists req, rest = [CalendarList req]) /\
    (available r = true ->
     exists req w, rest = [CalendarList req] /\
                   events_list req (world s) = (Ret {| items := Some [] |}, w)).
Proof.
  unfold checkAvailability_index, tryCatch, bind, lift, remote, isoString, itemsLength, ret.
  destruct (formatTime_any startTime); [|without_call].
  destruct (formatTime_any endTime); [|without_call].
  destruct (Date_parse _); [|without_call].
  destruct (Date_parse _); [|without_call].
  destruct (events_list _ _) as [[[[[|e l]|]]|msg] w] eqn:Hlist; cbn [items];
    (eexists _, _, [_]; split; [reflexivity|]; split; [reflexivity|];
     split; [right; eexists; reflexivity|]); cbn [available]; try discriminate.
  intros _. eexists _, w. split; [reflexivity | exact Hlist].
Qed.

End IndexCalls.
